(** * Interest-rate playground: the series normalizer and the calculators

    A shallow embedding of
    - [src/lib/finance.ts] (the four closed-form calculators),
    - the credit-card branch of [loanResults] in
      [src/app/bank-rate/ImpactCalculators.tsx] (the payoff simulation),
    - the helpers of [src/app/api/boe/bank-rate/route.ts]
      ([extractValue], [parseDataPoints], [getChangesOnly],
      [findCubesRecursive] and the [latest] pointer of [GET]),
    - [findObservations] and the part of [GET] that follows the XML parse,
    - the three [useMemo] results of [ImpactCalculators.tsx]
      ([mortgageResults], [savingsResults], [loanResults]),
    - the [sorted] memo of the page.

    JavaScript numbers are IEEE 754 binary64 values.  The numeric code is
    written once, over the interface [NumberOps], and the theorems about the
    program are stated over that interface or at [float] (the kernel's
    binary64 floats, which is what the program runs on, including NaN, the
    infinities and rounding).  The reals are a second instance of the
    interface: they are not what the program runs on, and serve only to
    state what a formula of the specification means where binary64
    rounding makes it fail of the program. *)

From Stdlib Require Import ZArith Bool List String Ascii Lia.
From Stdlib Require Import Floats Reals Lra.
From Stdlib Require Import Sorting.Sorted Sorting.Permutation.
From Stdlib Require Import Structures.OrdersEx.
From stdpp Require Import base gmap strings.
Import ListNotations.

Local Open Scope bool_scope.
Local Open Scope string_scope.
Local Open Scope list_scope.

(** ** Numbers *)

(** The operations the program applies to values of type [number]. *)
Class NumberOps (num : Type) := {
  fromZ : Z -> num;            (* an integer literal *)
  add : num -> num -> num;
  sub : num -> num -> num;
  mul : num -> num -> num;
  div : num -> num -> num;
  lt : num -> num -> bool;     (* x < y *)
  le : num -> num -> bool;     (* x <= y *)
  strictEq : num -> num -> bool; (* x === y *)
  isNaN : num -> bool;
}.

(** [Math.pow]: the language leaves its result implementation-approximated,
    so it is kept apart from the arithmetic. *)
Class MathPow (num : Type) := Math_pow : num -> num -> num.

Declare Scope js_scope.
Delimit Scope js_scope with js.
Notation "x + y" := (add x y) : js_scope.
Notation "x - y" := (sub x y) : js_scope.
Notation "x * y" := (mul x y) : js_scope.
Notation "x / y" := (div x y) : js_scope.
Notation "x < y" := (lt x y) : js_scope.
Notation "x <= y" := (le x y) : js_scope.
Notation "x > y" := (lt y x) : js_scope.
Notation "x === y" := (strictEq x y) (at level 70, no associativity) : js_scope.
Notation "x !== y" := (negb (strictEq x y)) (at level 70, no associativity) : js_scope.
Notation "# z" := (fromZ z%Z) (at level 1, format "# z") : js_scope.

(** *** IEEE 754 binary64 *)

Definition float_of_Z (z : Z) : float :=
  match z with
  | Z0 => PrimFloat.zero
  | Zpos _ => PrimFloat.of_uint63 (Uint63.of_Z z)
  | Zneg p => PrimFloat.opp (PrimFloat.of_uint63 (Uint63.of_Z (Zpos p)))
  end.

#[export] Instance float_ops : NumberOps float := {|
  fromZ := float_of_Z;
  add := PrimFloat.add;
  sub := PrimFloat.sub;
  mul := PrimFloat.mul;
  div := PrimFloat.div;
  lt := PrimFloat.ltb;
  le := PrimFloat.leb;
  strictEq := PrimFloat.eqb;
  isNaN := PrimFloat.is_nan;
|}.

(** *** Exact arithmetic

    The same operations on the reals, without rounding, overflow or NaN.
    This instance is no model of JavaScript numbers; it is the idealised
    reading of the code under which the dominance of compound over simple
    interest is stated, next to the binary64 run on which it fails. *)

Definition Rltb (x y : R) : bool := if Rlt_dec x y then true else false.
Definition Rleb (x y : R) : bool := if Rle_dec x y then true else false.
Definition Reqb (x y : R) : bool := if Req_dec_T x y then true else false.

#[export] Instance real_ops : NumberOps R := {|
  fromZ := IZR;
  add := Rplus;
  sub := Rminus;
  mul := Rmult;
  div := Rdiv;
  lt := Rltb;
  le := Rleb;
  strictEq := Reqb;
  isNaN := fun _ => false;
|}.

(** For a positive base, [x] to the power [y] is [exp (y * ln x)]. *)
#[export] Instance real_pow : MathPow R := Rpower.

(** ** src/lib/finance.ts *)

Module Finance.
Section Calculators.
Context {num : Type} {ops : NumberOps num} {pow : MathPow num}.
Local Open Scope js_scope.

Definition monthlyPaymentAmortised (principal annualRatePct years : num) : num :=
  if (principal < #0) || (annualRatePct < #0) || (years < #0) then #0
  else if isNaN principal || isNaN annualRatePct || isNaN years then #0
  else if (principal === #0) || (years === #0) then #0
  else if annualRatePct === #0 then principal / (years * #12)
  else
    let monthlyRate := annualRatePct / #100 / #12 in
    let numMonths := years * #12 in
    let numerator := principal * monthlyRate * Math_pow (#1 + monthlyRate) numMonths in
    let denominator := Math_pow (#1 + monthlyRate) numMonths - #1 in
    if denominator === #0 then #0
    else numerator / denominator.

Definition monthlyPaymentInterestOnly (principal annualRatePct : num) : num :=
  if (principal < #0) || (annualRatePct < #0) then #0
  else if isNaN principal || isNaN annualRatePct then #0
  else if principal === #0 then #0
  else
    let monthlyRate := annualRatePct / #100 / #12 in
    principal * monthlyRate.

Definition savingsCompoundMonthly (balance annualRatePct months : num) : num :=
  if (balance < #0) || (annualRatePct < #0) || (months < #0) then balance
  else if isNaN balance || isNaN annualRatePct || isNaN months then balance
  else if months === #0 then balance
  else
    let monthlyRate := annualRatePct / #100 / #12 in
    balance * Math_pow (#1 + monthlyRate) months.

Definition savingsSimple (balance annualRatePct months : num) : num :=
  if (balance < #0) || (annualRatePct < #0) || (months < #0) then balance
  else if isNaN balance || isNaN annualRatePct || isNaN months then balance
  else if months === #0 then balance
  else
    let monthlyRate := annualRatePct / #100 / #12 in
    balance * (#1 + monthlyRate * months).

End Calculators.
End Finance.

(** Inputs one of which is NaN or negative. *)
Definition badInput {num : Type} {ops : NumberOps num} (args : list num) : bool :=
  existsb (fun x => isNaN x || lt x (fromZ 0)) args.

(** NaN or one of the two infinities. *)
Definition nonFinite (x : float) : bool :=
  PrimFloat.is_nan x || PrimFloat.is_infinity x.

(** A stand-in for [Math.pow] at the exponent 12 of the sample runs: twelve
    multiplications.  At base 1 it is exactly 1, as [Math.pow(1, 12)] is. *)
Definition powTwelve : MathPow float :=
  fun x _ => (x * x * x * x * x * x * x * x * x * x * x * x)%float.

(** ** src/app/bank-rate/ImpactCalculators.tsx: the credit-card branch of [loanResults] *)

Module Impact.

(** The object the branch returns ([mode] is the constant ['credit-card']);
    [monthsToRepay] is [null] or the month counter. *)
Record Payoff (num : Type) := mkPayoff {
  monthsToRepay : option nat;
  totalInterest : num;
  willNotRepay : bool;
}.
Arguments mkPayoff {num}.
Arguments monthsToRepay {num}.
Arguments totalInterest {num}.
Arguments willNotRepay {num}.

Section CreditCard.
Context {num : Type} {ops : NumberOps num}.
Local Open Scope js_scope.

Definition maxMonths : nat := 600.

(** The literal [0.01]: the nearest number to one hundredth, which is what
    the correctly rounded quotient of 1 and 100 is. *)
Definition cent : num := #1 / #100.

(** The [return] after the [while] loop. *)
Definition afterLoop (totalInterest : num) (months : nat) : Payoff num :=
  {| monthsToRepay := if (maxMonths <=? months)%nat then None else Some months;
     totalInterest := totalInterest;
     willNotRepay := (maxMonths <=? months)%nat |}.

(** The [while] loop; [fuel] bounds the number of iterations still to
    run, the loop test itself is the one of the source. *)
Fixpoint payoffLoop (monthlyRate monthlyRepayment : num) (fuel : nat)
    (currentBalance totalInterest : num) (months : nat) : Payoff num :=
  match fuel with
  | O => afterLoop totalInterest months
  | S fuel' =>
    if (currentBalance > cent) && (months <? maxMonths)%nat then
      let monthlyInterest := currentBalance * monthlyRate in
      let totalInterest := totalInterest + monthlyInterest in
      if monthlyRepayment <= monthlyInterest then
        {| monthsToRepay := None; totalInterest := totalInterest; willNotRepay := true |}
      else
        payoffLoop monthlyRate monthlyRepayment fuel'
          (currentBalance + monthlyInterest - monthlyRepayment) totalInterest (S months)
    else afterLoop totalInterest months
  end.

(** The branch, from the three parsed inputs on. *)
Definition simulateCreditCardPayoff (balance apr monthlyRepayment : num) : Payoff num :=
  if (balance === #0) || (monthlyRepayment === #0) then
    {| monthsToRepay := None; totalInterest := #0; willNotRepay := false |}
  else
    let monthlyRate := apr / #100 / #12 in
    payoffLoop monthlyRate monthlyRepayment maxMonths balance #0 0.

(** The values the loop variables hold at the start of iteration [k],
    as long as the loop is still running. *)
Fixpoint balanceAt (monthlyRate monthlyRepayment balance : num) (k : nat) : num :=
  match k with
  | O => balance
  | S k' =>
    let b := balanceAt monthlyRate monthlyRepayment balance k' in
    b + b * monthlyRate - monthlyRepayment
  end.

Definition interestAt (monthlyRate monthlyRepayment balance : num) (k : nat) : num :=
  balanceAt monthlyRate monthlyRepayment balance k * monthlyRate.

Fixpoint accruedAt (monthlyRate monthlyRepayment balance : num) (k : nat) : num :=
  match k with
  | O => #0
  | S k' =>
    accruedAt monthlyRate monthlyRepayment balance k'
    + interestAt monthlyRate monthlyRepayment balance k'
  end.

(** Iteration [j] runs to its end: the balance is above the tolerance and
    the repayment exceeds the month's interest. *)
Definition running (monthlyRate monthlyRepayment balance : num) (j : nat) : bool :=
  (balanceAt monthlyRate monthlyRepayment balance j > cent)
  && negb (monthlyRepayment <= interestAt monthlyRate monthlyRepayment balance j).

End CreditCard.
End Impact.

(** ** src/app/api/boe/bank-rate/route.ts *)

Module Route.

(** What [XMLParser.parse] returns, and what the helpers probe at run time:
    a JavaScript value.  The properties of an object are listed in the
    order [for ... in] enumerates them; an object holds a key once. *)
#[warnings="-register-all"]
Inductive JSValue : Type :=
  | JUndefined
  | JNull
  | JBool (b : bool)
  | JNumber (x : float)
  | JString (s : string)
  | JArray (items : list JSValue)
  | JObject (props : list (string * JSValue)).

Record DataPoint := mkDataPoint { date : string; value : float }.

(** [ToBoolean]: what [!v], [v && ...] and [if (v)] test. *)
Definition truthy (v : JSValue) : bool :=
  match v with
  | JUndefined | JNull => false
  | JBool b => b
  | JNumber x => negb (PrimFloat.eqb x 0) && negb (PrimFloat.is_nan x)
  | JString s => negb (String.eqb s "")
  | JArray _ | JObject _ => true
  end.

(** [typeof v === 'object'] *)
Definition typeofObject (v : JSValue) : bool :=
  match v with
  | JNull | JArray _ | JObject _ => true
  | _ => false
  end.

Definition isArray (v : JSValue) : bool :=
  match v with JArray _ => true | _ => false end.

(** [v !== undefined && v !== null] *)
Definition notNullish (v : JSValue) : bool :=
  match v with JUndefined | JNull => false | _ => true end.

Fixpoint lookupProp (key : string) (props : list (string * JSValue)) : JSValue :=
  match props with
  | [] => JUndefined
  | (k, v) :: props' => if String.eqb k key then v else lookupProp key props'
  end.

(** [obj[key]] on own data properties.  The keys the program reads are XML
    names ([Cube], [TIME], [@_TIME], ...), never an array index, [length]
    or an inherited method, so an array answers [undefined]. *)
Definition getProp (obj : JSValue) (key : string) : JSValue :=
  match obj with
  | JObject props => lookupProp key props
  | _ => JUndefined
  end.

(** The values [for (const key in obj) { obj[key] }] visits, in order. *)
Definition ownValues (obj : JSValue) : list JSValue :=
  match obj with
  | JObject props => map snd props
  | JArray items => items
  | _ => []
  end.

Fixpoint joinWith (sep : string) (l : list string) : string :=
  match l with
  | [] => ""
  | [s] => s
  | s :: l' => (s ++ sep ++ joinWith sep l')%string
  end.

(** [a || b] and [a && b] on the results of [extractValue]. *)
Definition truthyStr (a : option string) : bool :=
  match a with
  | Some s => negb (String.eqb s "")
  | None => false
  end.

Definition orElse (a b : option string) : option string :=
  if truthyStr a then a else b.

Section Helpers.
(** Built-ins of the host: [parseFloat], the number-to-string conversion
    inside [String(...)], and [String.prototype.localeCompare]. *)
Variable parseFloat : string -> float.
Variable numberToString : float -> string.
Variable localeCompare : string -> string -> Z.

(** [String(v)] *)
Fixpoint toStr (v : JSValue) : string :=
  match v with
  | JUndefined => "undefined"
  | JNull => "null"
  | JBool true => "true"
  | JBool false => "false"
  | JNumber x => numberToString x
  | JString s => s
  | JArray items =>
    joinWith ","
      (map (fun item => match item with
                        | JUndefined | JNull => ""
                        | _ => toStr item
                        end) items)
  | JObject _ => "[object Object]"
  end.

Definition extractValue (node : JSValue) (key : string) : option string :=
  if negb (truthy node) || negb (typeofObject node) then None
  else
    let attrValue := getProp node ("@_" ++ key)%string in
    if notNullish attrValue then Some (toStr attrValue)
    else
      let directValue := getProp node key in
      if notNullish directValue then Some (toStr directValue)
      else None.

(** The state of the loop of [parseDataPoints]. *)
Definition Collected : Type := list DataPoint * gset string.

(** The body both branches share: read the date and the value of one
    candidate and push the point unless its date was seen. *)
Definition readPoint (st : Collected) (node : JSValue) : Collected :=
  let '(points, seenDates) := st in
  let timePeriod := orElse (extractValue node "TIME_PERIOD") (extractValue node "TIME") in
  let obsValue := extractValue node "OBS_VALUE" in
  match timePeriod, obsValue with
  | Some t, Some v =>
    if truthyStr timePeriod && truthyStr obsValue then
      if decide (t ∈ seenDates) then st
      else (points ++ [{| date := t; value := parseFloat v |}], {[ t ]} ∪ seenDates)
    else st
  | _, _ => st
  end.

(** One iteration of [for (const obs of observations)]. *)
Definition visitObservation (st : Collected) (obs : JSValue) : Collected :=
  if negb (truthy obs) || negb (typeofObject obs) then st
  else
    let cubeArray :=
      if truthy (getProp obs "Cube") then getProp obs "Cube" else getProp obs "cube" in
    if truthy cubeArray then
      let cubes := match cubeArray with JArray items => items | _ => [cubeArray] end in
      fold_left
        (fun st cube =>
           if negb (truthy cube) || negb (typeofObject cube) then st
           else readPoint st cube)
        cubes st
    else readPoint st obs.

(** [points.sort((a, b) => a.date.localeCompare(b.date))].  The built-in
    sort is stable; insertion from the right is the stable sort used here. *)
Fixpoint insertPoint (p : DataPoint) (sorted : list DataPoint) : list DataPoint :=
  match sorted with
  | [] => [p]
  | q :: sorted' =>
    if (localeCompare (date p) (date q) >? 0)%Z then q :: insertPoint p sorted'
    else p :: q :: sorted'
  end.

Definition sortPoints (points : list DataPoint) : list DataPoint :=
  fold_right insertPoint [] points.

Definition collectPoints (observations : list JSValue) : list DataPoint :=
  fst (fold_left visitObservation observations ([], ∅)).

Definition parseDataPoints (observations : list JSValue) : list DataPoint :=
  sortPoints (collectPoints observations).

(** **** Vocabulary of the properties of [parseDataPoints] *)

(** The value string of the first contribution that carries date [d]. *)
Fixpoint firstReading (d : string) (rs : list (string * string)) : option string :=
  match rs with
  | [] => None
  | (t, v) :: rs' => if String.eqb t d then Some v else firstReading d rs'
  end.

(** Lexicographic order of the dates, character code by character code. *)
Definition dateLt (p q : DataPoint) : Prop :=
  String_as_OT.lt (date p) (date q).

(** The nodes one observation hands to the shared body, in order: the
    object-typed elements of its [Cube] (or [cube]) value, or the
    observation itself. *)
Definition candidatesOf (obs : JSValue) : list JSValue :=
  if negb (truthy obs) || negb (typeofObject obs) then []
  else
    let cubeArray :=
      if truthy (getProp obs "Cube") then getProp obs "Cube" else getProp obs "cube" in
    if truthy cubeArray then
      List.filter (fun cube => negb (negb (truthy cube) || negb (typeofObject cube)))
        (match cubeArray with JArray items => items | _ => [cubeArray] end)
    else [obs].

(** The date and the value string a candidate contributes, if it does. *)
Definition reading (node : JSValue) : option (string * string) :=
  let timePeriod := orElse (extractValue node "TIME_PERIOD") (extractValue node "TIME") in
  let obsValue := extractValue node "OBS_VALUE" in
  match timePeriod, obsValue with
  | Some t, Some v =>
    if truthyStr timePeriod && truthyStr obsValue then Some (t, v) else None
  | _, _ => None
  end.

Definition readingsOf (nodes : list JSValue) : list (string * string) :=
  flat_map (fun node => match reading node with Some r => [r] | None => [] end) nodes.

(** All contributions of the input, in input order. *)
Definition readings (observations : list JSValue) : list (string * string) :=
  readingsOf (flat_map candidatesOf observations).

(** The de-duplicating push. *)
Definition addReading (st : Collected) (r : string * string) : Collected :=
  let '(points, seenDates) := st in
  if decide (fst r ∈ seenDates) then st
  else (points ++ [{| date := fst r; value := parseFloat (snd r) |}],
        {[ fst r ]} ∪ seenDates).

(** The host's collation orders the given strings as the lexicographic
    comparison does (as it does for dates written [YYYY-MM-DD]). *)
Definition collatesLexicographically (dates : list string) : Prop :=
  forall a b, In a dates -> In b dates ->
    Z.compare (localeCompare a b) 0 = String_as_OT.compare a b.

(** What the loop of [parseDataPoints] maintains, after the contributions
    [rs] have been processed. *)
Record Collects (rs : list (string * string)) (st : Collected) : Prop := {
  collects_seen :
    forall d, d ∈ snd st <-> exists v, firstReading d rs = Some v;
  collects_points :
    forall p, In p (fst st) <->
      exists v, firstReading (date p) rs = Some v /\ value p = parseFloat v;
  collects_nodup : NoDup (map date (fst st));
}.

End Helpers.

(** [points[i]], for [i] in range. *)
Definition pointAt (points : list DataPoint) (i : nat) : DataPoint :=
  nth i points {| date := ""; value := PrimFloat.nan |}.

Definition getChangesOnly (points : list DataPoint) : list DataPoint :=
  match points with
  | [] => []
  | p0 :: _ =>
    fold_left
      (fun changes i =>
         if negb (PrimFloat.eqb (value (pointAt points i)) (value (pointAt points (i - 1))))
         then changes ++ [pointAt points i]
         else changes)
      (seq 1 (length points - 1)) [p0]
  end.

(** [changesOnly.length > 0 ? changesOnly[changesOnly.length - 1] : null] in [GET]. *)
Definition latest (changesOnly : list DataPoint) : option DataPoint :=
  match changesOnly with
  | [] => None
  | _ => nth_error changesOnly (length changesOnly - 1)
  end.

(** The two [if (obj.Cube) ...] blocks for one key. *)
Definition cubesUnder (obj : JSValue) (key : string) : list JSValue :=
  let cube := getProp obj key in
  if truthy cube then
    match cube with
    | JArray items => items
    | _ => [cube]
    end
  else [].

(** [value && typeof value === 'object' && !Array.isArray(value)] *)
Definition isPlainObject (v : JSValue) : bool :=
  truthy v && typeofObject v && negb (isArray v).

Fixpoint findCubesRecursive (obj : JSValue) (depth : nat) : list JSValue :=
  if (5 <? depth)%nat then []
  else
    cubesUnder obj "Cube" ++ cubesUnder obj "cube" ++
    match obj with
    | JObject props =>
      (fix nestedOf (ps : list (string * JSValue)) : list JSValue :=
         match ps with
         | [] => []
         | (_, v) :: ps' =>
           (if isPlainObject v then findCubesRecursive v (S depth) else [])
           ++ nestedOf ps'
         end) props
    | JArray items =>
      (fix nestedOf (vs : list JSValue) : list JSValue :=
         match vs with
         | [] => []
         | v :: vs' =>
           (if isPlainObject v then findCubesRecursive v (S depth) else [])
           ++ nestedOf vs'
         end) items
    | _ => []
    end.

(** **** Vocabulary of the properties of [getChangesOnly] *)

(** [a.value !== b.value] *)
Definition differs (a b : DataPoint) : bool :=
  negb (PrimFloat.eqb (value a) (value b)).

(** The loop of [getChangesOnly], read along the list: [prev] is the element
    of the full series just before [rest]. *)
Fixpoint changesAfter (prev : DataPoint) (rest : list DataPoint) : list DataPoint :=
  match rest with
  | [] => []
  | p :: rest' =>
    if differs p prev then p :: changesAfter p rest' else changesAfter p rest'
  end.

(** The rule in the words of the specification: index 0 is kept, a later
    index is kept when its value differs from the value at the index just
    before it in the full series. *)
Definition keepsIndex (points : list DataPoint) (i : nat) : bool :=
  (i =? 0)%nat || differs (pointAt points i) (pointAt points (i - 1)).

Definition changesOnlySpec (points : list DataPoint) : list DataPoint :=
  map (pointAt points) (List.filter (keepsIndex points) (seq 0 (length points))).

(** **** Vocabulary of the properties of [findCubesRecursive] *)

(** [Below follow d root o]: [o] lies [d] levels below [root], each level
    being one enumerated property (or array element) whose value passes
    [follow]. *)
Inductive Below (follow : JSValue -> bool) : nat -> JSValue -> JSValue -> Prop :=
| below_root (root : JSValue) : Below follow 0 root root
| below_step (d : nat) (root v o : JSValue) :
  In v (ownValues root) -> follow v = true ->
  Below follow d v o -> Below follow (S d) root o.

(** What the two [if (obj.Cube)] / [if (obj.cube)] blocks push for [obj]. *)
Definition cubesOf (obj : JSValue) : list JSValue :=
  cubesUnder obj "Cube" ++ cubesUnder obj "cube".

(** The specification's wording: a node stored under a [Cube] or [cube] key anywhere
    in the subtree, at most five levels down, arrays being part of the
    subtree like objects. *)
Definition structured (v : JSValue) : bool :=
  match v with JArray _ | JObject _ => true | _ => false end.

Definition InSubtreeCubes (root x : JSValue) : Prop :=
  exists d o, d <= 5 /\ Below structured d root o /\ In x (cubesOf o).

(** What the code searches: objects reached through properties whose values
    are objects and not arrays. *)
Definition InSearchedCubes (root x : JSValue) (depth : nat) : Prop :=
  exists d o, depth + d <= 5 /\ Below isPlainObject d root o /\ In x (cubesOf o).

(** The recursive calls of one invocation. *)
Definition nestedCubes (obj : JSValue) (depth : nat) : list JSValue :=
  flat_map (fun v => if isPlainObject v then findCubesRecursive v (S depth) else [])
    (ownValues obj).

(** **** [findObservations] and the part of [GET] after the XML is parsed *)

(** [a || b] on values. *)
Definition orValue (a b : JSValue) : JSValue :=
  if truthy a then a else b.

(** [Array.isArray(v) ? v : [v]] *)
Definition asList (v : JSValue) : list JSValue :=
  match v with
  | JArray items => items
  | _ => [v]
  end.

(** The [if (envelope && typeof envelope === 'object') { ... }] block: the
    value it returns, or [None] when control falls out of the block. *)
Definition fromEnvelope (envelope : JSValue) : option (list JSValue) :=
  if truthy envelope && typeofObject envelope then
    let env := envelope in
    let cube := orValue (getProp env "Cube") (getProp env "cube") in
    if truthy cube then Some (asList cube)
    else
      let recursiveCubes := findCubesRecursive env 0 in
      if (0 <? length recursiveCubes)%nat then Some recursiveCubes
      else
        let message := orValue (getProp env "message") (getProp env "Message") in
        if truthy message && typeofObject message then
          let msg := message in
          let dataset :=
            orValue (orValue (orValue (getProp msg "DataSet") (getProp msg "dataset"))
                       (getProp msg "DataSet")) (getProp msg "dataSet") in
          if truthy dataset && typeofObject dataset then
            let ds := dataset in
            let series :=
              orValue (orValue (orValue (getProp ds "Series") (getProp ds "series"))
                         (getProp ds "Series")) (getProp ds "series") in
            if truthy series && typeofObject series then
              let ser := series in
              let obs :=
                orValue (orValue (orValue (getProp ser "Obs") (getProp ser "obs"))
                           (getProp ser "Obs")) (getProp ser "obs") in
              if truthy obs then Some (asList obs) else None
            else None
          else None
        else None
  else None.

(** [None] is the [null] the function returns. *)
Definition findObservations (parsed : JSValue) : option (list JSValue) :=
  if negb (truthy parsed) || negb (typeofObject parsed) then None
  else
    let obj := parsed in
    let envelope := orValue (getProp obj "Envelope") (getProp obj "envelope") in
    match fromEnvelope envelope with
    | Some found => Some found
    | None =>
      if truthy (getProp obj "Cube") && isArray (getProp obj "Cube")
      then Some (asList (getProp obj "Cube"))
      else if truthy (getProp obj "cube") && isArray (getProp obj "cube")
      then Some (asList (getProp obj "cube"))
      else
        let recursiveCubes := findCubesRecursive obj 0 in
        if (0 <? length recursiveCubes)%nat then Some recursiveCubes
        else None
    end.

(** The object [GET] answers with on success, before it is serialised. *)
Record BankRateResponse := mkBankRateResponse {
  seriesCode : string;
  points : list DataPoint;
  changesOnly : list DataPoint;
  latestPoint : option DataPoint;
}.

(** What [GET] answers with: an error with its HTTP status, or the result. *)
Inductive Response : Type :=
| ErrorResponse (status : nat) (error : string)
| OkResponse (result : BankRateResponse).

Section Get.
Variable parseFloat : string -> float.
Variable numberToString : float -> string.
Variable localeCompare : string -> string -> Z.

(** [GET] from [const observations = findObservations(parsed)] on.  The two
    logging statements that can throw are kept, since the [catch] turns the
    throw into the 500 answer: [JSON.stringify(parsed, null, 2).substring]
    throws when [parsed] is [undefined], and [Object.keys(observations[0])]
    throws when the first observation is [undefined] or [null]. *)
Definition respond (parsed : JSValue) : Response :=
  let internalError :=
    ErrorResponse 500 "Internal server error processing Bank of England data" in
  match findObservations parsed with
  | None | Some [] =>
    match parsed with
    | JUndefined => internalError
    | _ => ErrorResponse 502 "No observations found in the XML data"
    end
  | Some (first :: rest) =>
    let observations := first :: rest in
    if negb (notNullish first) then internalError
    else
      let points := parseDataPoints parseFloat numberToString localeCompare observations in
      if (length points =? 0)%nat then
        ErrorResponse 502 "No valid data points found after parsing observations"
      else
        let changesOnly := getChangesOnly points in
        let latest := latest changesOnly in
        OkResponse {| seriesCode := "IUDBEDR";
                      points := points;
                      changesOnly := changesOnly;
                      latestPoint := latest |}
  end.

End Get.

(** **** Vocabulary of the further properties *)

(** [b] follows [a] with a different value. *)
Definition valueChanges (a b : DataPoint) : Prop := differs b a = true.

(** The point a contribution becomes. *)
Definition pointOf (parseFloat : string -> float) (r : string * string) : DataPoint :=
  {| date := fst r; value := parseFloat (snd r) |}.

(** A point-node in one of the two dialects of the feed: [TIME] and
    [OBS_VALUE] as attributes, or [TIME_PERIOD] and [OBS_VALUE] as
    children. *)
Inductive Dialect : Type := AttributeTime | ChildTimePeriod.

Definition pointNode (dialect : Dialect) (r : string * string) : JSValue :=
  match dialect with
  | AttributeTime =>
    JObject [("@_TIME", JString (fst r)); ("@_OBS_VALUE", JString (snd r))]
  | ChildTimePeriod =>
    JObject [("TIME_PERIOD", JString (fst r)); ("OBS_VALUE", JString (snd r))]
  end.

(** [x] is a value (or an array element of the value) stored under [key] of
    a node somewhere in the document. *)
Definition StoredUnder (key : string) (parsed x : JSValue) : Prop :=
  exists d o, Below structured d parsed o
              /\ truthy (getProp o key) = true
              /\ In x (asList (getProp o key)).

Definition StoredInDocument (parsed x : JSValue) : Prop :=
  StoredUnder "Cube" parsed x \/ StoredUnder "cube" parsed x
  \/ StoredUnder "Obs" parsed x \/ StoredUnder "obs" parsed x.

End Route.

(** ** src/app/bank-rate/ImpactCalculators.tsx: the three [useMemo] results *)

Module Scenarios.

Inductive RepaymentType : Type := Repayment | InterestOnly.
Inductive SavingsMode : Type := SavingsMargin | SavingsFixed.
Inductive InterestType : Type := SimpleInterest | CompoundInterest.
Inductive LoanMode : Type := PersonalLoan | CreditCard.
Inductive RateMode : Type := RateMargin | RateFixed.

Module MortgageInputs.
Record t : Type := mk {
  loanAmount : string;
  termYears : string;
  repaymentType : RepaymentType;
  lenderMargin : string;
  currentFixedRate : string;
}.
End MortgageInputs.

Module SavingsInputs.
Record t : Type := mk {
  balance : string;
  savingsMode : SavingsMode;
  margin : string;
  fixedAPY : string;
  timeMonths : string;
  interestType : InterestType;
}.
End SavingsInputs.

Module LoanInputs.
Record t : Type := mk {
  mode : LoanMode;
  loanAmount : string;
  termYears : string;
  rateMode : RateMode;
  margin : string;
  fixedAPR : string;
  balance : string;
  apr : string;
  monthlyRepayment : string;
}.
End LoanInputs.

Module MortgageResults.
Record t (num : Type) : Type := mk {
  effectiveRateNow : num;
  effectiveRateScenario : num;
  paymentNow : num;
  paymentScenario : num;
  difference : num;
  paymentCurrentFixed : option num;
}.
Arguments mk {num}.
Arguments effectiveRateNow {num}.
Arguments effectiveRateScenario {num}.
Arguments paymentNow {num}.
Arguments paymentScenario {num}.
Arguments difference {num}.
Arguments paymentCurrentFixed {num}.
End MortgageResults.

Module SavingsResults.
Record t (num : Type) : Type := mk {
  annualRateNow : num;
  annualRateScenario : num;
  finalBalanceNow : num;
  finalBalanceScenario : num;
  interestNow : num;
  interestScenario : num;
  difference : num;
}.
Arguments mk {num}.
Arguments annualRateNow {num}.
Arguments annualRateScenario {num}.
Arguments finalBalanceNow {num}.
Arguments finalBalanceScenario {num}.
Arguments interestNow {num}.
Arguments interestScenario {num}.
Arguments difference {num}.
End SavingsResults.

Module PersonalLoanResults.
Record t (num : Type) : Type := mk {
  monthlyPayment : num;
  totalInterest : num;
  totalPaid : num;
  annualRate : num;
}.
Arguments mk {num}.
Arguments monthlyPayment {num}.
Arguments totalInterest {num}.
Arguments totalPaid {num}.
Arguments annualRate {num}.
End PersonalLoanResults.

(** What [loanResults] holds: the object of one of its two modes. *)
Inductive LoanResults (num : Type) : Type :=
| PersonalLoanMode (r : PersonalLoanResults.t num)
| CreditCardMode (r : Impact.Payoff num).
Arguments PersonalLoanMode {num}.
Arguments CreditCardMode {num}.

Section Results.
Context {num : Type} {ops : NumberOps num} {pow : MathPow num}.
Variable parseFloat : string -> num.
Local Open Scope js_scope.

(** [ToBoolean] of a number, and [x || y] on numbers. *)
Definition truthyNumber (x : num) : bool :=
  negb (x === #0) && negb (isNaN x).

Definition orNumber (x y : num) : num :=
  if truthyNumber x then x else y.

(** [parseFloat(s) || null] *)
Definition orNull (x : num) : option num :=
  if truthyNumber x then Some x else None.

Definition mortgageResults (inputs : MortgageInputs.t) (baseRate scenarioRate : num)
    : MortgageResults.t num :=
  let loanAmount := orNumber (parseFloat (MortgageInputs.loanAmount inputs)) #0 in
  let termYears := orNumber (parseFloat (MortgageInputs.termYears inputs)) #0 in
  let margin := orNumber (parseFloat (MortgageInputs.lenderMargin inputs)) #0 in
  let currentFixed := orNull (parseFloat (MortgageInputs.currentFixedRate inputs)) in
  let effectiveRateNow := baseRate + margin in
  let effectiveRateScenario := scenarioRate + margin in
  let paymentNow :=
    match MortgageInputs.repaymentType inputs with
    | Repayment => Finance.monthlyPaymentAmortised loanAmount effectiveRateNow termYears
    | InterestOnly => Finance.monthlyPaymentInterestOnly loanAmount effectiveRateNow
    end in
  let paymentScenario :=
    match MortgageInputs.repaymentType inputs with
    | Repayment => Finance.monthlyPaymentAmortised loanAmount effectiveRateScenario termYears
    | InterestOnly => Finance.monthlyPaymentInterestOnly loanAmount effectiveRateScenario
    end in
  let paymentCurrentFixed :=
    match currentFixed with
    | Some currentFixed =>
      Some match MortgageInputs.repaymentType inputs with
           | Repayment => Finance.monthlyPaymentAmortised loanAmount currentFixed termYears
           | InterestOnly => Finance.monthlyPaymentInterestOnly loanAmount currentFixed
           end
    | None => None
    end in
  {| MortgageResults.effectiveRateNow := effectiveRateNow;
     MortgageResults.effectiveRateScenario := effectiveRateScenario;
     MortgageResults.paymentNow := paymentNow;
     MortgageResults.paymentScenario := paymentScenario;
     MortgageResults.difference := paymentScenario - paymentNow;
     MortgageResults.paymentCurrentFixed := paymentCurrentFixed |}.

Definition savingsResults (inputs : SavingsInputs.t) (baseRate scenarioRate : num)
    : SavingsResults.t num :=
  let balance := orNumber (parseFloat (SavingsInputs.balance inputs)) #0 in
  let months := orNumber (parseFloat (SavingsInputs.timeMonths inputs)) #0 in
  let annualRate :=
    match SavingsInputs.savingsMode inputs with
    | SavingsMargin => baseRate + orNumber (parseFloat (SavingsInputs.margin inputs)) #0
    | SavingsFixed => orNumber (parseFloat (SavingsInputs.fixedAPY inputs)) #0
    end in
  let scenarioAnnualRate :=
    match SavingsInputs.savingsMode inputs with
    | SavingsMargin => scenarioRate + orNumber (parseFloat (SavingsInputs.margin inputs)) #0
    | SavingsFixed => orNumber (parseFloat (SavingsInputs.fixedAPY inputs)) #0
    end in
  let finalBalanceNow :=
    match SavingsInputs.interestType inputs with
    | CompoundInterest => Finance.savingsCompoundMonthly balance annualRate months
    | SimpleInterest => Finance.savingsSimple balance annualRate months
    end in
  let finalBalanceScenario :=
    match SavingsInputs.interestType inputs with
    | CompoundInterest => Finance.savingsCompoundMonthly balance scenarioAnnualRate months
    | SimpleInterest => Finance.savingsSimple balance scenarioAnnualRate months
    end in
  let interestNow := finalBalanceNow - balance in
  let interestScenario := finalBalanceScenario - balance in
  {| SavingsResults.annualRateNow := annualRate;
     SavingsResults.annualRateScenario := scenarioAnnualRate;
     SavingsResults.finalBalanceNow := finalBalanceNow;
     SavingsResults.finalBalanceScenario := finalBalanceScenario;
     SavingsResults.interestNow := interestNow;
     SavingsResults.interestScenario := interestScenario;
     SavingsResults.difference := finalBalanceScenario - finalBalanceNow |}.

Definition loanResults (inputs : LoanInputs.t) (baseRate : num) : LoanResults num :=
  match LoanInputs.mode inputs with
  | PersonalLoan =>
    let loanAmount := orNumber (parseFloat (LoanInputs.loanAmount inputs)) #0 in
    let termYears := orNumber (parseFloat (LoanInputs.termYears inputs)) #0 in
    let annualRate :=
      match LoanInputs.rateMode inputs with
      | RateMargin => baseRate + orNumber (parseFloat (LoanInputs.margin inputs)) #0
      | RateFixed => orNumber (parseFloat (LoanInputs.fixedAPR inputs)) #0
      end in
    let monthlyPayment := Finance.monthlyPaymentAmortised loanAmount annualRate termYears in
    let totalPaid := monthlyPayment * termYears * #12 in
    let totalInterest := totalPaid - loanAmount in
    PersonalLoanMode
      {| PersonalLoanResults.monthlyPayment := monthlyPayment;
         PersonalLoanResults.totalInterest := totalInterest;
         PersonalLoanResults.totalPaid := totalPaid;
         PersonalLoanResults.annualRate := annualRate |}
  | CreditCard =>
    let balance := orNumber (parseFloat (LoanInputs.balance inputs)) #0 in
    let apr := orNumber (parseFloat (LoanInputs.apr inputs)) #0 in
    let monthlyRepayment := orNumber (parseFloat (LoanInputs.monthlyRepayment inputs)) #0 in
    CreditCardMode (Impact.simulateCreditCardPayoff balance apr monthlyRepayment)
  end.

End Results.
End Scenarios.

(** ** The page component (src/unnamed/part_000) *)

Module Page.

(** The [sorted] memo: [data?.changesOnly ?? null], copied and sorted. *)
Definition sorted (localeCompare : string -> string -> Z)
    (data : option Route.BankRateResponse) : list Route.DataPoint :=
  match data with
  | None => []
  | Some d =>
    if (length (Route.changesOnly d) =? 0)%nat then []
    else Route.sortPoints localeCompare (Route.changesOnly d)
  end.

End Page.

(** ** Strict equality of binary64 numbers, on their specification *)

Definition sameNumber (f1 f2 : spec_float) : Prop :=
  match f1, f2 with
  | S754_zero _, S754_zero _ => True
  | S754_infinity s1, S754_infinity s2 => s1 = s2
  | S754_finite s1 m1 e1, S754_finite s2 m2 e2 => s1 = s2 /\ m1 = m2 /\ e1 = e2
  | _, _ => False
  end.

(** ** Sample documents *)

Section SampleData.
Import Route.

(** Stand-ins for the host's built-ins on the sample inputs. *)
Definition lexOrder (a b : string) : Z :=
  match String_as_OT.compare a b with
  | Lt => (-1)%Z
  | Eq => 0%Z
  | Gt => 1%Z
  end.

Definition sampleParseFloat (s : string) : float :=
  if String.eqb s "0.5" then 0.5%float
  else if String.eqb s "0.25" then 0.25%float
  else if String.eqb s "0.75" then 0.75%float
  else PrimFloat.nan.

Definition sampleNumberToString (x : float) : string :=
  if PrimFloat.eqb x 0.25 then "0.25" else "".

Definition cubeNode (time obsValue : string) : JSValue :=
  JObject [("@_TIME", JString time); ("@_OBS_VALUE", JString obsValue)].

(** One observation wrapping three points, the third repeating the date of
    the first, and one direct observation repeating the date of the second. *)
Definition sampleObservations : list JSValue :=
  [ JObject [("Cube", JArray [cubeNode "2020-03-19" "0.5";
                              cubeNode "2020-03-11" "0.25";
                              cubeNode "2020-03-19" "0.75"])];
    JObject [("TIME_PERIOD", JString "2020-03-11"); ("OBS_VALUE", JString "0.75")] ].

(** A collation that ranks a letter before its case, as the default
    collation of the host does: ["a".localeCompare("M")] is negative
    although [M] has the smaller character code. *)
Definition foldCase (c : ascii) : ascii :=
  let n := nat_of_ascii c in
  if (65 <=? n)%nat && (n <=? 90)%nat then ascii_of_nat (n + 32) else c.

Fixpoint foldCases (s : string) : string :=
  match s with
  | EmptyString => EmptyString
  | String c s' => String (foldCase c) (foldCases s')
  end.

Definition localeOrder (a b : string) : Z :=
  match String_as_OT.compare (foldCases a) (foldCases b) with
  | Lt => (-1)%Z
  | Gt => 1%Z
  | Eq => lexOrder b a
  end.

(** Two observations whose dates spell the month. *)
Definition monthNameObservations : list JSValue :=
  [ cubeNode "2020-Mar-19" "0.25"; cubeNode "2020-apr-02" "0.5" ].

(** A field present in both forms. *)
Definition bothForms : JSValue :=
  JObject [("OBS_VALUE", JString "0.75"); ("@_OBS_VALUE", JNumber 0.25)].

(** Point-nodes two object levels below the envelope. *)
Definition nestedCubeDocument : JSValue :=
  JObject [("@_xmlns", JString "urn");
           ("Cube", JObject [("Cube", JArray [cubeNode "2020-03-11" "0.25";
                                              cubeNode "2020-03-19" "0.5"])])].

Definition sampleSeries : list DataPoint :=
  [ {| date := "2020-03-11"; value := 0.25 |};
    {| date := "2020-03-19"; value := 0.5 |};
    {| date := "2020-03-20"; value := 0.5 |} ].

(** A point-node inside an array element: [{ a: [ { Cube: node } ] }]. *)
Definition cubeInsideArray : JSValue :=
  JObject [("a", JArray [JObject [("Cube",
    JObject [("@_TIME", JString "2020-03-19"); ("@_OBS_VALUE", JString "0.5")])]])].

(** The document of [nestedCubeDocument] as the parser hands it over: under
    an [Envelope]. *)
Definition envelopeDocument : JSValue :=
  JObject [("Envelope", nestedCubeDocument)].

Definition samplePoints : list DataPoint :=
  [ {| date := "2020-03-11"; value := 0.25 |};
    {| date := "2020-03-19"; value := 0.5 |} ].

Definition sampleResponse : BankRateResponse :=
  {| seriesCode := "IUDBEDR";
     points := samplePoints;
     changesOnly := samplePoints;
     latestPoint := Some {| date := "2020-03-19"; value := 0.5 |} |}.

(** Two points, one in each dialect, the later one first. *)
Definition sampleEntries : list (Dialect * (string * string)) :=
  [ (AttributeTime, ("2020-03-19", "0.5"));
    (ChildTimePeriod, ("2020-03-11", "0.25")) ].

(** A mortgage form with the amount left blank. *)
Definition blankMortgage : Scenarios.MortgageInputs.t :=
  {| Scenarios.MortgageInputs.loanAmount := "";
     Scenarios.MortgageInputs.termYears := "0.25";
     Scenarios.MortgageInputs.repaymentType := Scenarios.Repayment;
     Scenarios.MortgageInputs.lenderMargin := "0.5";
     Scenarios.MortgageInputs.currentFixedRate := "0.75" |}.

(** A personal loan of 0.75 at the fixed rate 0.25 with the term left
    blank, and savings of 0.5 with the months left blank. *)
Definition sampleLoan : Scenarios.LoanInputs.t :=
  {| Scenarios.LoanInputs.mode := Scenarios.PersonalLoan;
     Scenarios.LoanInputs.loanAmount := "0.75";
     Scenarios.LoanInputs.termYears := "";
     Scenarios.LoanInputs.rateMode := Scenarios.RateFixed;
     Scenarios.LoanInputs.margin := "";
     Scenarios.LoanInputs.fixedAPR := "0.25";
     Scenarios.LoanInputs.balance := "";
     Scenarios.LoanInputs.apr := "";
     Scenarios.LoanInputs.monthlyRepayment := "" |}.

Definition blankSavings : Scenarios.SavingsInputs.t :=
  {| Scenarios.SavingsInputs.balance := "0.5";
     Scenarios.SavingsInputs.savingsMode := Scenarios.SavingsMargin;
     Scenarios.SavingsInputs.margin := "0.25";
     Scenarios.SavingsInputs.fixedAPY := "";
     Scenarios.SavingsInputs.timeMonths := "";
     Scenarios.SavingsInputs.interestType := Scenarios.CompoundInterest |}.

End SampleData.

(** * Properties *)

(** ** The calculators of src/lib/finance.ts *)

Section FinanceFacts.
Import Finance.

Lemma Rltb_true (x y : R) : Rltb x y = true <-> (x < y)%R.
Proof. unfold Rltb. destruct (Rlt_dec x y); split; intros; auto; discriminate || contradiction. Qed.

Lemma Rltb_false (x y : R) : Rltb x y = false <-> (y <= x)%R.
Proof. unfold Rltb. destruct (Rlt_dec x y); split; intros; auto; try discriminate; lra. Qed.

Lemma Reqb_true (x y : R) : Reqb x y = true <-> x = y.
Proof. unfold Reqb. destruct (Req_dec_T x y); split; intros; auto; discriminate || contradiction. Qed.

Lemma Reqb_false (x y : R) : Reqb x y = false <-> x <> y.
Proof. unfold Reqb. destruct (Req_dec_T x y); split; intros; auto; discriminate || contradiction. Qed.

(** Bernoulli's inequality for a real exponent: the tangent of [exp] at 0,
    used twice. *)
Lemma ln_lower_bound (a : R) : (1 < a)%R -> (a - 1 <= a * ln a)%R.
Proof.
  intros Ha.
  assert (Hinv : (0 < / a)%R) by (apply Rinv_0_lt_compat; lra).
  pose proof (exp_ineq1_le (/ a - 1)) as Hexp.
  replace (1 + (/ a - 1))%R with (/ a)%R in Hexp by lra.
  assert (Hln : (ln (/ a) <= / a - 1)%R).
  { destruct Hexp as [Hlt | Heq].
    - left. rewrite <- (ln_exp (/ a - 1)). apply ln_increasing; assumption.
    - right. transitivity (ln (exp (/ a - 1))); [now rewrite <- Heq | apply ln_exp]. }
  rewrite ln_Rinv in Hln by lra.
  assert (Hmul : (a * (1 - / a) <= a * ln a)%R).
  { apply Rmult_le_compat_l; lra. }
  replace (a * (1 - / a))%R with (a - 1)%R in Hmul; [exact Hmul |].
  field. lra.
Qed.

Lemma Rpower_bernoulli (x n : R) :
  (0 < x)%R -> (1 <= n)%R -> (1 + n * x <= Rpower (1 + x) n)%R.
Proof.
  intros Hx Hn.
  set (a := (1 + x)%R).
  assert (Ha : (1 < a)%R) by (unfold a; lra).
  replace n with (1 + (n - 1))%R at 2 by lra.
  rewrite Rpower_plus, Rpower_1 by lra.
  unfold Rpower.
  pose proof (exp_ineq1_le ((n - 1) * ln a)) as Hexp.
  pose proof (ln_lower_bound a Ha) as Hln.
  assert (H1 : (a * (1 + (n - 1) * ln a) <= a * exp ((n - 1) * ln a))%R).
  { apply Rmult_le_compat_l; lra. }
  assert (H2 : ((n - 1) * (a - 1) <= (n - 1) * (a * ln a))%R).
  { apply Rmult_le_compat_l; lra. }
  unfold a in *. nra.
Qed.

Lemma float_neq (x y : float) : Prim2SF x <> Prim2SF y -> x <> y.
Proof. intros Hne Heq. apply Hne. now rewrite Heq. Qed.

Ltac real_guards :=
  repeat match goal with
         | |- context [Rltb ?x ?y] =>
           let E := fresh "E" in
           destruct (Rltb x y) eqn:E;
           [apply Rltb_true in E | apply Rltb_false in E]
         | |- context [Reqb ?x ?y] =>
           let E := fresh "E" in
           destruct (Reqb x y) eqn:E;
           [apply Reqb_true in E | apply Reqb_false in E]
         end;
  cbn [orb negb].

(** C3, as the code has it: every calculator is a total function, and on an
    input in which an argument is NaN or negative (minus infinity included)
    the payment functions return zero and the savings functions return the
    balance unchanged.  Plus infinity is not part of the guard. *)
Theorem calculators_default_on_nan_or_negative :
  forall (num : Type) (ops : NumberOps num) (pow : MathPow num)
         (principal rate term : num),
    (badInput [principal; rate] = true ->
     monthlyPaymentInterestOnly principal rate = fromZ 0)
    /\ (badInput [principal; rate; term] = true ->
        monthlyPaymentAmortised principal rate term = fromZ 0
        /\ savingsCompoundMonthly principal rate term = principal
        /\ savingsSimple principal rate term = principal).
Proof.
  intros num ops pow principal rate term.
  unfold badInput, monthlyPaymentInterestOnly, monthlyPaymentAmortised,
    savingsCompoundMonthly, savingsSimple.
  cbn [existsb].
  destruct (isNaN principal), (lt principal (fromZ 0)),
    (isNaN rate), (lt rate (fromZ 0));
    cbn [orb]; (split; [intros Hbad | ]); try discriminate; try reflexivity;
    destruct (isNaN term), (lt term (fromZ 0));
    cbn [orb]; intros Hbad'; try discriminate; repeat split; reflexivity.
Qed.

Lemma calculators_default_on_nan_or_negative_witness :
  badInput [PrimFloat.nan; (-1)%float] = true
  /\ badInput [PrimFloat.nan; (-1)%float; 2%float] = true
  /\ monthlyPaymentInterestOnly PrimFloat.nan (-1)%float = 0%float
  /\ monthlyPaymentAmortised (pow := fun x _ => x) PrimFloat.nan (-1)%float 2%float = 0%float
  /\ savingsCompoundMonthly (pow := fun x _ => x) PrimFloat.nan (-1)%float 2%float = PrimFloat.nan
  /\ savingsSimple PrimFloat.nan (-1)%float 2%float = PrimFloat.nan.
Proof.
  destruct (calculators_default_on_nan_or_negative float float_ops (fun x _ => x)
              PrimFloat.nan (-1)%float 2%float) as [Hio Hrest].
  assert (H2 : badInput [PrimFloat.nan; (-1)%float] = true) by reflexivity.
  assert (H3 : badInput [PrimFloat.nan; (-1)%float; 2%float] = true) by reflexivity.
  destruct (Hrest H3) as (Ha & Hc & Hs).
  exact (conj H2 (conj H3 (conj (Hio H2) (conj Ha (conj Hc Hs))))).
Defined.

(** C3 as stated fails on plus infinity: it is non-finite, yet the payment
    is not zero and the savings balance is not the one passed in. *)
Lemma positive_infinity_is_not_guarded :
  nonFinite PrimFloat.infinity = true
  /\ monthlyPaymentInterestOnly PrimFloat.infinity 5%float <> 0%float
  /\ savingsSimple 100%float PrimFloat.infinity 12%float <> 100%float.
Proof.
  split; [reflexivity |].
  split; apply float_neq; vm_compute; discriminate.
Qed.

(** C7, as the code has it, on every number system the code is read at
    (binary64 included): the payment is zero as soon as the principal or
    the rate is negative; for a principal and a rate that are neither
    negative nor NaN it is zero for a zero principal and otherwise the
    product of the principal and [r / 100 / 12], computed in that order. *)
Theorem interest_only_payment_formula :
  forall (num : Type) (ops : NumberOps num) (P r : num),
    (lt P (fromZ 0) || lt r (fromZ 0) = true ->
     monthlyPaymentInterestOnly P r = fromZ 0)
    /\ (lt P (fromZ 0) = false -> lt r (fromZ 0) = false ->
        isNaN P = false -> isNaN r = false ->
        monthlyPaymentInterestOnly P r
        = if strictEq P (fromZ 0) then fromZ 0
          else mul P (div (div r (fromZ 100)) (fromZ 12))).
Proof.
  intros num ops P r. unfold monthlyPaymentInterestOnly. split.
  - now intros ->.
  - now intros -> -> -> ->.
Qed.

Lemma interest_only_payment_formula_witness :
  PrimFloat.ltb 1200 0 = false /\ PrimFloat.ltb 5 0 = false
  /\ PrimFloat.is_nan 1200 = false /\ PrimFloat.is_nan 5 = false
  /\ monthlyPaymentInterestOnly 1200%float 5%float = (1200 * (5 / 100 / 12))%float.
Proof.
  exact (conj eq_refl (conj eq_refl (conj eq_refl (conj eq_refl
           (proj2 (interest_only_payment_formula float float_ops 1200%float 5%float)
              eq_refl eq_refl eq_refl eq_refl))))).
Defined.

(** C7 as stated fails twice on binary64.  On a negative principal the
    guard answers zero, not [P * r / 1200].  And inside the guard the
    product [P * (r / 100 / 12)] is rounded three times and need not be the
    number [P * r / 1200]: for (100, 1) it is the next number above. *)
Lemma interest_only_is_not_P_r_over_1200 :
  monthlyPaymentInterestOnly (-1200)%float 1%float = 0%float
  /\ ((-1200) * 1 / 1200)%float = (-1)%float
  /\ PrimFloat.eqb (monthlyPaymentInterestOnly 100%float 1%float)
                   (100 * 1 / 1200)%float = false
  /\ PrimFloat.next_up (100 * 1 / 1200)%float
     = monthlyPaymentInterestOnly 100%float 1%float.
Proof. repeat split; vm_compute; reflexivity. Qed.

(** C8, as the code has it.  On every number system, outside the guards
    the two functions multiply the balance by the growth factors
    [Math.pow(1 + i, n)] and [1 + i * n], with [i = r / 100 / 12].  In
    exact arithmetic (the reals, [Math.pow] as the real power), for a
    positive balance and rate and more than one month, monthly compounding
    yields at least what simple interest yields. *)
Theorem compound_dominates_simple :
  (forall (num : Type) (ops : NumberOps num) (pow : MathPow num) (B r n : num),
      badInput [B; r; n] = false -> strictEq n (fromZ 0) = false ->
      savingsCompoundMonthly B r n
      = mul B (Math_pow (add (fromZ 1) (div (div r (fromZ 100)) (fromZ 12))) n)
      /\ savingsSimple B r n
         = mul B (add (fromZ 1) (mul (div (div r (fromZ 100)) (fromZ 12)) n)))
  /\ (forall B r n : R,
        (0 < r)%R -> (1 < n)%R -> (0 < B)%R ->
        (savingsCompoundMonthly B r n >= savingsSimple B r n)%R).
Proof.
  split.
  - intros num ops pow B r n Hbad Hn.
    unfold badInput in Hbad. cbn [existsb] in Hbad.
    unfold savingsCompoundMonthly, savingsSimple. rewrite Hn.
    destruct (isNaN B), (lt B (fromZ 0)), (isNaN r), (lt r (fromZ 0)),
      (isNaN n), (lt n (fromZ 0)); try discriminate; split; reflexivity.
  - intros B r n Hr Hn HB.
    unfold savingsCompoundMonthly, savingsSimple. cbn.
    real_guards; try lra. cbn.
    apply Rle_ge, Rmult_le_compat_l; [lra |].
    unfold Math_pow, real_pow.
    rewrite (Rmult_comm (r / 100 / 12) n).
    apply Rpower_bernoulli; lra.
Qed.

Lemma compound_dominates_simple_witness :
  (0 < 12)%R /\ (1 < 2)%R /\ (0 < 100)%R
  /\ (savingsCompoundMonthly 100%R 12%R 2%R >= savingsSimple 100%R 12%R 2%R)%R.
Proof.
  refine (conj _ (conj _ (conj _ (proj2 compound_dominates_simple 100%R 12%R 2%R _ _ _))));
    lra.
Defined.

(** C8 as stated fails on binary64: at the rate 1e-13 the monthly rate is
    below half the spacing of the numbers at 1, so [1 + r / 100 / 12] is 1
    and compounding yields the balance, while simple interest yields
    more. *)
Lemma compounding_lost_to_rounding :
  let r := (1 / 10000000000000)%float in
  PrimFloat.ltb 0 r = true
  /\ PrimFloat.ltb 1 12 = true
  /\ PrimFloat.ltb 0 1 = true
  /\ (1 + r / 100 / 12)%float = 1%float
  /\ savingsCompoundMonthly (pow := powTwelve) 1%float r 12%float = 1%float
  /\ PrimFloat.ltb (savingsCompoundMonthly (pow := powTwelve) 1%float r 12%float)
                   (savingsSimple 1%float r 12%float) = true.
Proof. repeat split; vm_compute; reflexivity. Qed.

End FinanceFacts.

(** ** The credit-card payoff simulation *)

Section PayoffFacts.
Import Impact.
Context {num : Type} {ops : NumberOps num}.
Variables monthlyRate monthlyRepayment balance : num.

Local Abbreviation balanceOf := (balanceAt monthlyRate monthlyRepayment balance).
Local Abbreviation interestOf := (interestAt monthlyRate monthlyRepayment balance).
Local Abbreviation accruedOf := (accruedAt monthlyRate monthlyRepayment balance).
Local Abbreviation runningAt := (running monthlyRate monthlyRepayment balance).

(** As long as every earlier iteration runs to its end, the loop variables
    at the start of iteration [k] are the iterated values, and the fuel
    left is exactly the number of iterations the cap still allows. *)
Lemma payoffLoop_steps (k : nat) :
  k <= maxMonths ->
  (forall j, j < k -> runningAt j = true) ->
  payoffLoop monthlyRate monthlyRepayment maxMonths balance (fromZ 0) 0
  = payoffLoop monthlyRate monthlyRepayment (maxMonths - k)
      (balanceOf k) (accruedOf k) k.
Proof.
  induction k as [| k IH]; intros Hk Hrun.
  - now rewrite Nat.sub_0_r.
  - rewrite IH by (try lia; intros j Hj; apply Hrun; lia).
    replace (maxMonths - k) with (S (maxMonths - S k)) by lia.
    cbn [payoffLoop].
    assert (Hr : runningAt k = true) by (apply Hrun; lia).
    unfold running in Hr. apply andb_true_iff in Hr as [Hbal Hpay].
    apply negb_true_iff in Hpay. unfold interestAt in Hpay.
    rewrite Hbal, Hpay.
    replace (k <? maxMonths)%nat with true by (symmetry; apply Nat.ltb_lt; lia).
    reflexivity.
Qed.

(** The loop never runs out of fuel: more fuel than the cap allows changes
    nothing. *)
Lemma payoffLoop_fuel (extra fuel : nat) (b t : num) (months : nat) :
  maxMonths <= months + fuel ->
  payoffLoop monthlyRate monthlyRepayment (fuel + extra) b t months
  = payoffLoop monthlyRate monthlyRepayment fuel b t months.
Proof.
  revert b t months. induction fuel as [| fuel IH]; intros b t months Hcap.
  - destruct extra as [| extra]; [reflexivity |].
    cbn [Nat.add payoffLoop].
    replace (months <? maxMonths)%nat with false
      by (symmetry; apply Nat.ltb_ge; lia).
    now rewrite andb_false_r.
  - cbn [Nat.add payoffLoop].
    destruct (lt cent b && (months <? maxMonths)%nat); [| reflexivity].
    destruct (le monthlyRepayment (mul b monthlyRate)); [reflexivity |].
    apply IH. lia.
Qed.

(** The balance falls to the tolerance at the start of month [m], before
    the cap: the month counter is returned. *)
Lemma payoff_repaid_before_cap (m : nat) :
  m < maxMonths ->
  (forall j, j < m -> runningAt j = true) ->
  lt cent (balanceOf m) = false ->
  payoffLoop monthlyRate monthlyRepayment maxMonths balance (fromZ 0) 0
  = {| monthsToRepay := Some m; totalInterest := accruedOf m; willNotRepay := false |}.
Proof.
  intros Hm Hrun Hdone.
  rewrite (payoffLoop_steps m) by (lia || assumption).
  replace (maxMonths - m) with (S (maxMonths - S m)) by lia.
  cbn [payoffLoop]. rewrite Hdone. cbn [andb]. unfold afterLoop.
  replace (maxMonths <=? m)%nat with false by (symmetry; apply Nat.leb_gt; lia).
  reflexivity.
Qed.

(** The repayment does not exceed the interest of month [k]. *)
Lemma payoff_insufficient (k : nat) :
  k < maxMonths ->
  (forall j, j < k -> runningAt j = true) ->
  lt cent (balanceOf k) = true ->
  le monthlyRepayment (interestOf k) = true ->
  payoffLoop monthlyRate monthlyRepayment maxMonths balance (fromZ 0) 0
  = {| monthsToRepay := None;
       totalInterest := add (accruedOf k) (interestOf k);
       willNotRepay := true |}.
Proof.
  intros Hk Hrun Hbal Hpay.
  rewrite (payoffLoop_steps k) by (lia || assumption).
  replace (maxMonths - k) with (S (maxMonths - S k)) by lia.
  cbn [payoffLoop]. unfold interestAt in Hpay. rewrite Hbal, Hpay.
  replace (k <? maxMonths)%nat with true by (symmetry; apply Nat.ltb_lt; lia).
  reflexivity.
Qed.

(** All [maxMonths] iterations run to their end. *)
Lemma payoff_cap_reached :
  (forall j, j < maxMonths -> runningAt j = true) ->
  payoffLoop monthlyRate monthlyRepayment maxMonths balance (fromZ 0) 0
  = {| monthsToRepay := None;
       totalInterest := accruedOf maxMonths;
       willNotRepay := true |}.
Proof.
  intros Hrun.
  rewrite (payoffLoop_steps maxMonths) by (lia || assumption).
  rewrite Nat.sub_diag. cbn [payoffLoop]. unfold afterLoop.
  now rewrite Nat.leb_refl.
Qed.

End PayoffFacts.

Section PayoffClaims.
Import Impact.

(** C5: when in some month the repayment is less than or equal to that
    month's interest, the simulation stops at once with [willNotRepay],
    no month count, and the interest accrued so far, that month's
    included; on (5000, 18, 50) this is the first month and the total
    interest is 75. *)
Theorem insufficient_payment_stops_simulation :
  (forall (num : Type) (ops : NumberOps num)
          (balance apr monthlyRepayment : num) (k : nat),
      let monthlyRate := div (div apr (fromZ 100)) (fromZ 12) in
      strictEq balance (fromZ 0) = false ->
      strictEq monthlyRepayment (fromZ 0) = false ->
      k < maxMonths ->
      (forall j, j < k -> running monthlyRate monthlyRepayment balance j = true) ->
      lt cent (balanceAt monthlyRate monthlyRepayment balance k) = true ->
      le monthlyRepayment (interestAt monthlyRate monthlyRepayment balance k) = true ->
      simulateCreditCardPayoff balance apr monthlyRepayment
      = {| monthsToRepay := None;
           totalInterest :=
             add (accruedAt monthlyRate monthlyRepayment balance k)
                 (interestAt monthlyRate monthlyRepayment balance k);
           willNotRepay := true |})
  /\ simulateCreditCardPayoff 5000%float 18%float 50%float
     = {| monthsToRepay := None; totalInterest := 75%float; willNotRepay := true |}.
Proof.
  split.
  - intros num ops balance apr monthlyRepayment k monthlyRate Hb Hp Hk Hrun Hbal Hpay.
    unfold simulateCreditCardPayoff. rewrite Hb, Hp. cbn [orb].
    now apply payoff_insufficient.
  - vm_compute. reflexivity.
Qed.

Lemma insufficient_payment_stops_simulation_witness :
  let monthlyRate := (18 / 100 / 12)%float in
  PrimFloat.eqb 5000 0 = false
  /\ PrimFloat.eqb 50 0 = false
  /\ 0 < maxMonths
  /\ (forall j, j < 0 -> running monthlyRate 50%float 5000%float j = true)
  /\ lt cent (balanceAt monthlyRate 50%float 5000%float 0) = true
  /\ le 50%float (interestAt monthlyRate 50%float 5000%float 0) = true
  /\ simulateCreditCardPayoff 5000%float 18%float 50%float
     = {| monthsToRepay := None;
          totalInterest :=
            add (accruedAt monthlyRate 50%float 5000%float 0)
                (interestAt monthlyRate 50%float 5000%float 0);
          willNotRepay := true |}.
Proof.
  intros monthlyRate.
  assert (H1 : PrimFloat.eqb 5000 0 = false) by reflexivity.
  assert (H2 : PrimFloat.eqb 50 0 = false) by reflexivity.
  assert (H3 : 0 < maxMonths) by (unfold maxMonths; lia).
  assert (H4 : forall j, j < 0 -> running monthlyRate 50%float 5000%float j = true)
    by (intros j Hj; lia).
  assert (H5 : lt cent (balanceAt monthlyRate 50%float 5000%float 0) = true)
    by reflexivity.
  assert (H6 : le 50%float (interestAt monthlyRate 50%float 5000%float 0) = true)
    by reflexivity.
  exact (conj H1 (conj H2 (conj H3 (conj H4 (conj H5 (conj H6
    (proj1 insufficient_payment_stops_simulation float float_ops
       5000%float 18%float 50%float 0 H1 H2 H3 H4 H5 H6))))))).
Defined.

(** C4 at the boundary of the cap.  On (600, 0, 1) each of the 600
    iterations runs to its end (the balance is above 0.01 and the repayment
    exceeds the interest), and the 600th update brings the balance to zero;
    the result nevertheless reports [willNotRepay] and no month count. *)
Theorem payoff_in_month_600_reported_unpaid :
  let balance := 600%float in
  let apr := 0%float in
  let monthlyRepayment := 1%float in
  let monthlyRate := (apr / 100 / 12)%float in
  PrimFloat.ltb 0 balance = true
  /\ PrimFloat.ltb 0 monthlyRepayment = true
  /\ forallb (running monthlyRate monthlyRepayment balance) (seq 0 maxMonths) = true
  /\ balanceAt monthlyRate monthlyRepayment balance maxMonths = 0%float
  /\ le (balanceAt monthlyRate monthlyRepayment balance maxMonths) cent = true
  /\ simulateCreditCardPayoff balance apr monthlyRepayment
     = {| monthsToRepay := None; totalInterest := 0%float; willNotRepay := true |}.
Proof.
  cbv zeta. repeat split; vm_compute; reflexivity.
Qed.

(** One month less and the same code answers with the month counter. *)
Example payoff_in_month_599 :
  simulateCreditCardPayoff 599%float 0%float 1%float
  = {| monthsToRepay := Some 599; totalInterest := 0%float; willNotRepay := false |}.
Proof. vm_compute. reflexivity. Qed.

(** X1: a balance that reaches the tolerance at the start of month
    [m < 600] yields [m]; and 600 iterations that run to their end yield
    [willNotRepay] with no month count, whatever the balance is after the
    600th repayment, the run that this repayment clears included. *)
Lemma payoff_simulation_outcomes :
  forall (num : Type) (ops : NumberOps num) (balance apr monthlyRepayment : num),
    let monthlyRate := div (div apr (fromZ 100)) (fromZ 12) in
    strictEq balance (fromZ 0) = false ->
    strictEq monthlyRepayment (fromZ 0) = false ->
    (forall m, m < maxMonths ->
       (forall j, j < m -> running monthlyRate monthlyRepayment balance j = true) ->
       lt cent (balanceAt monthlyRate monthlyRepayment balance m) = false ->
       simulateCreditCardPayoff balance apr monthlyRepayment
       = {| monthsToRepay := Some m;
            totalInterest := accruedAt monthlyRate monthlyRepayment balance m;
            willNotRepay := false |})
    /\ ((forall j, j < maxMonths ->
           running monthlyRate monthlyRepayment balance j = true) ->
        simulateCreditCardPayoff balance apr monthlyRepayment
        = {| monthsToRepay := None;
             totalInterest := accruedAt monthlyRate monthlyRepayment balance maxMonths;
             willNotRepay := true |}).
Proof.
  intros num ops balance apr monthlyRepayment monthlyRate Hb Hp.
  unfold simulateCreditCardPayoff. rewrite Hb, Hp. cbn [orb].
  split.
  - intros m Hm Hrun Hdone. now apply payoff_repaid_before_cap.
  - intros Hrun. now apply payoff_cap_reached.
Qed.

Lemma payoff_simulation_outcomes_witness :
  let monthlyRate := (0 / 100 / 12)%float in
  PrimFloat.eqb 3 0 = false
  /\ PrimFloat.eqb 1 0 = false
  /\ 3 < maxMonths
  /\ (forall j, j < 3 -> running monthlyRate 1%float 3%float j = true)
  /\ lt cent (balanceAt monthlyRate 1%float 3%float 3) = false
  /\ simulateCreditCardPayoff 3%float 0%float 1%float
     = {| monthsToRepay := Some 3;
          totalInterest := accruedAt monthlyRate 1%float 3%float 3;
          willNotRepay := false |}.
Proof.
  intros monthlyRate.
  assert (H1 : PrimFloat.eqb 3 0 = false) by reflexivity.
  assert (H2 : PrimFloat.eqb 1 0 = false) by reflexivity.
  assert (H3 : 3 < maxMonths) by (unfold maxMonths; lia).
  assert (H4 : forall j, j < 3 -> running monthlyRate 1%float 3%float j = true).
  { intros [| [| [| j]]] Hj; try reflexivity. lia. }
  assert (H5 : lt cent (balanceAt monthlyRate 1%float 3%float 3) = false)
    by reflexivity.
  exact (conj H1 (conj H2 (conj H3 (conj H4 (conj H5
    (proj1 (payoff_simulation_outcomes float float_ops 3%float 0%float 1%float H1 H2)
       3 H3 H4 H5)))))).
Defined.

Example payoff_5000_18_200 :
  monthsToRepay (simulateCreditCardPayoff 5000%float 18%float 200%float) = Some 32.
Proof. vm_compute. reflexivity. Qed.

Example cent_is_the_literal : cent = 0x1.47ae147ae147bp-7%float.
Proof. vm_compute. reflexivity. Qed.

End PayoffClaims.

(** ** Strict equality of binary64 numbers *)

Section FloatEquality.

Lemma finite_compare_eq (e1 e2 : Z) (m1 m2 : positive) :
  match Z.compare e1 e2 with
  | Lt => Lt | Gt => Gt | Eq => Pos.compare_cont Eq m1 m2 end = Eq
  <-> m1 = m2 /\ e1 = e2.
Proof.
  change (Pos.compare_cont Eq m1 m2) with (Pos.compare m1 m2).
  destruct (Z.compare_spec e1 e2) as [He | He | He].
  - rewrite Pos.compare_eq_iff. intuition.
  - split; [discriminate | intros [_ ->]; lia].
  - split; [discriminate | intros [_ ->]; lia].
Qed.

Lemma finite_compare_eq_neg (e1 e2 : Z) (m1 m2 : positive) :
  match Z.compare e1 e2 with
  | Lt => Gt | Gt => Lt | Eq => CompOpp (Pos.compare_cont Eq m1 m2) end = Eq
  <-> m1 = m2 /\ e1 = e2.
Proof.
  change (Pos.compare_cont Eq m1 m2) with (Pos.compare m1 m2).
  destruct (Z.compare_spec e1 e2) as [He | He | He].
  - destruct (Pos.compare_spec m1 m2); cbn; split; try discriminate; intuition; try lia.
  - split; [discriminate | intros [_ ->]; lia].
  - split; [discriminate | intros [_ ->]; lia].
Qed.

Lemma SFeqb_sameNumber (f1 f2 : spec_float) :
  SFeqb f1 f2 = true <-> sameNumber f1 f2.
Proof.
  unfold SFeqb, SFcompare, sameNumber.
  destruct f1 as [s1 | s1 | | s1 m1 e1], f2 as [s2 | s2 | | s2 m2 e2];
    try destruct s1; try destruct s2; cbn;
    try (split; [discriminate | contradiction]);
    try (split; [discriminate | intros [Hs _]; discriminate]);
    try (split; [discriminate | discriminate]);
    try (split; reflexivity || constructor).
  - pose proof (finite_compare_eq_neg e1 e2 m1 m2) as Hc.
    destruct (match (e1 ?= e2)%Z with Eq => CompOpp (Pos.compare_cont Eq m1 m2) | Lt => Gt | Gt => Lt end);
      split; intros Hx; try discriminate; try tauto;
      destruct Hx as (_ & Hx); apply Hc in Hx; discriminate.
  - pose proof (finite_compare_eq e1 e2 m1 m2) as Hc.
    destruct (match (e1 ?= e2)%Z with Eq => Pos.compare_cont Eq m1 m2 | Lt => Lt | Gt => Gt end);
      split; intros Hx; try discriminate; try tauto;
      destruct Hx as (_ & Hx); apply Hc in Hx; discriminate.
Qed.

Lemma sameNumber_sym (f1 f2 : spec_float) : sameNumber f1 f2 -> sameNumber f2 f1.
Proof.
  destruct f1, f2; cbn; try tauto; try congruence.
  intros (-> & -> & ->). auto.
Qed.

Lemma sameNumber_trans (f1 f2 f3 : spec_float) :
  sameNumber f1 f2 -> sameNumber f2 f3 -> sameNumber f1 f3.
Proof.
  destruct f1, f2, f3; cbn; try tauto; try congruence.
  intros (-> & -> & ->) (-> & -> & ->). auto.
Qed.

Lemma strictEq_sym (x y : float) : PrimFloat.eqb x y = PrimFloat.eqb y x.
Proof.
  rewrite !FloatAxioms.eqb_spec.
  destruct (SFeqb (Prim2SF x) (Prim2SF y)) eqn:E1, (SFeqb (Prim2SF y) (Prim2SF x)) eqn:E2;
    try reflexivity.
  - apply SFeqb_sameNumber, sameNumber_sym, SFeqb_sameNumber in E1. congruence.
  - apply SFeqb_sameNumber, sameNumber_sym, SFeqb_sameNumber in E2. congruence.
Qed.

Lemma strictEq_trans (x y z : float) :
  PrimFloat.eqb x y = true -> PrimFloat.eqb y z = true -> PrimFloat.eqb x z = true.
Proof.
  rewrite !FloatAxioms.eqb_spec, !SFeqb_sameNumber. apply sameNumber_trans.
Qed.

Lemma strictEq_refl (x : float) : PrimFloat.is_nan x = false -> PrimFloat.eqb x x = true.
Proof. unfold PrimFloat.is_nan. now intros H%negb_false_iff. Qed.

End FloatEquality.

(** ** The helpers of route.ts *)

Section RouteFacts.
Import Route.
Variable numberToString : float -> string.

Local Abbreviation extractValue := (Route.extractValue numberToString).

(** *** [extractValue] *)

Lemma getProp_present_object (node : JSValue) (key : string) :
  notNullish (getProp node key) = true -> exists props, node = JObject props.
Proof. destruct node; cbn; try discriminate. eauto. Qed.

(** C9: when the attribute form and the child form of a field are both
    present the attribute value is returned; when neither is present, or
    the node is not an object or an array, the result is absent. *)
Theorem extractValue_prefers_attribute :
  forall (node : JSValue) (key : string),
    (notNullish (getProp node ("@_" ++ key)) = true ->
     notNullish (getProp node key) = true ->
     extractValue node key = Some (toStr numberToString (getProp node ("@_" ++ key))))
    /\ (notNullish (getProp node ("@_" ++ key)) = false ->
        notNullish (getProp node key) = false ->
        extractValue node key = None)
    /\ ((forall items, node <> JArray items) ->
        (forall props, node <> JObject props) ->
        extractValue node key = None).
Proof.
  intros node key. unfold Route.extractValue. repeat split.
  - intros Hattr _. destruct (getProp_present_object _ _ Hattr) as [props ->].
    cbn [truthy typeofObject negb orb]. now rewrite Hattr.
  - intros Hattr Hdirect. rewrite Hattr, Hdirect.
    now destruct (negb (truthy node) || negb (typeofObject node)).
  - intros Harr Hobj. destruct node as [| | [] | x | s | items | props];
      cbn [truthy typeofObject negb orb]; try reflexivity;
      try (now rewrite orb_true_r).
    now destruct (Hobj props).
Qed.

End RouteFacts.

(** *** [getChangesOnly] and the [latest] pointer *)

Section ChangesOnlyFacts.
Import Route.

Lemma pointAt_app_cons (pre : list DataPoint) (x : DataPoint) (post : list DataPoint) :
  pointAt (pre ++ x :: post) (length pre) = x.
Proof. unfold pointAt. now rewrite nth_middle. Qed.

Lemma getChangesOnly_loop (pre : list DataPoint) (x : DataPoint)
    (rest acc : list DataPoint) :
  let points := pre ++ x :: rest in
  fold_left
    (fun changes i =>
       if negb (PrimFloat.eqb (value (pointAt points i)) (value (pointAt points (i - 1))))
       then changes ++ [pointAt points i]
       else changes)
    (seq (S (length pre)) (length rest)) acc
  = acc ++ changesAfter x rest.
Proof.
  cbv zeta. revert pre x acc.
  induction rest as [| y rest IH]; intros pre x acc.
  - cbn. now rewrite app_nil_r.
  - cbn [length seq fold_left changesAfter].
    replace (S (length pre) - 0) with (S (length pre)) by lia.
    replace (S (length pre) - 1) with (length pre) by lia.
    rewrite pointAt_app_cons.
    assert (Hy : pointAt (pre ++ x :: y :: rest) (S (length pre)) = y).
    { replace (pre ++ x :: y :: rest) with ((pre ++ [x]) ++ y :: rest)
        by now rewrite <- app_assoc.
      replace (S (length pre)) with (length (pre ++ [x]))
        by (rewrite length_app; cbn; lia).
      apply pointAt_app_cons. }
    rewrite Hy. fold (differs y x).
    specialize (IH (pre ++ [x]) y).
    replace (length (pre ++ [x])) with (S (length pre)) in IH
      by (rewrite length_app; cbn; lia).
    replace ((pre ++ [x]) ++ y :: rest) with (pre ++ x :: y :: rest) in IH
      by now rewrite <- app_assoc.
    rewrite IH.
    destruct (differs y x); [now rewrite <- app_assoc | reflexivity].
Qed.

Lemma getChangesOnly_cons (p0 : DataPoint) (rest : list DataPoint) :
  getChangesOnly (p0 :: rest) = p0 :: changesAfter p0 rest.
Proof.
  unfold getChangesOnly. cbn [length].
  replace (S (length rest) - 1) with (length rest) by lia.
  exact (getChangesOnly_loop [] p0 rest [p0]).
Qed.

Lemma changesOnlySpec_loop (pre : list DataPoint) (x : DataPoint) (rest : list DataPoint) :
  let points := pre ++ x :: rest in
  map (pointAt points) (List.filter (keepsIndex points) (seq (S (length pre)) (length rest)))
  = changesAfter x rest.
Proof.
  cbv zeta. revert pre x.
  induction rest as [| y rest IH]; intros pre x; [reflexivity |].
  cbn [length seq List.filter changesAfter].
  assert (Hy : pointAt (pre ++ x :: y :: rest) (S (length pre)) = y).
  { replace (pre ++ x :: y :: rest) with ((pre ++ [x]) ++ y :: rest)
      by now rewrite <- app_assoc.
    replace (S (length pre)) with (length (pre ++ [x]))
      by (rewrite length_app; cbn; lia).
    apply pointAt_app_cons. }
  assert (Hkeep : keepsIndex (pre ++ x :: y :: rest) (S (length pre)) = differs y x).
  { unfold keepsIndex. cbn [Nat.eqb orb]. rewrite Hy.
    replace (S (length pre) - 1) with (length pre) by lia.
    now rewrite pointAt_app_cons. }
  rewrite Hkeep.
  specialize (IH (pre ++ [x]) y).
  replace (length (pre ++ [x])) with (S (length pre)) in IH
    by (rewrite length_app; cbn; lia).
  replace ((pre ++ [x]) ++ y :: rest) with (pre ++ x :: y :: rest) in IH
    by now rewrite <- app_assoc.
  destruct (differs y x); cbn [map]; now rewrite ?Hy, IH.
Qed.

Lemma changesOnlySpec_cons (p0 : DataPoint) (rest : list DataPoint) :
  changesOnlySpec (p0 :: rest) = p0 :: changesAfter p0 rest.
Proof.
  unfold changesOnlySpec. cbn [length seq List.filter].
  unfold keepsIndex at 1. cbn [Nat.eqb orb map]. f_equal.
  exact (changesOnlySpec_loop [] p0 rest).
Qed.

Lemma changesAfter_app (prev : DataPoint) (l1 : list DataPoint) (x : DataPoint)
    (l2 : list DataPoint) :
  changesAfter prev (l1 ++ x :: l2) = changesAfter prev (l1 ++ [x]) ++ changesAfter x l2.
Proof.
  revert prev. induction l1 as [| y l1 IH]; intros prev; cbn.
  - now destruct (differs x prev).
  - rewrite IH. now destruct (differs y prev).
Qed.

Lemma getChangesOnly_app (pre : list DataPoint) (x : DataPoint) (post : list DataPoint) :
  getChangesOnly (pre ++ x :: post) = getChangesOnly (pre ++ [x]) ++ changesAfter x post.
Proof.
  destruct pre as [| p0 pre]; cbn [app].
  - now rewrite !getChangesOnly_cons.
  - now rewrite !getChangesOnly_cons, changesAfter_app.
Qed.

(** C1, as the code has it: the empty series gives the empty sequence;
    element 0 comes first in the output; an element after it is kept exactly
    when its value differs from the value just before it in the full series.
    Of three consecutive points with values A, B, A (A and B different) the
    second and the third are always kept; the first is kept when the series
    starts with it, and otherwise exactly when its value differs from the
    value of the point before it. *)
Theorem getChangesOnly_keeps_every_change :
  getChangesOnly [] = []
  /\ (forall p0 rest, exists tail, getChangesOnly (p0 :: rest) = p0 :: tail)
  /\ (forall points, getChangesOnly points = changesOnlySpec points)
  /\ (forall a b c post,
        value c = value a -> PrimFloat.eqb (value a) (value b) = false ->
        exists tail, getChangesOnly (a :: b :: c :: post) = a :: b :: c :: tail)
  /\ (forall pre q a b c post,
        value c = value a -> PrimFloat.eqb (value a) (value b) = false ->
        exists tail,
          getChangesOnly (pre ++ q :: a :: b :: c :: post)
          = getChangesOnly (pre ++ [q])
            ++ (if differs a q then [a] else []) ++ b :: c :: tail).
Proof.
  assert (Haba : forall a b c post,
             value c = value a -> PrimFloat.eqb (value a) (value b) = false ->
             changesAfter a (b :: c :: post) = b :: c :: changesAfter c post).
  { intros a b c post Hca Hab. cbn [changesAfter]. unfold differs.
    rewrite Hca, (strictEq_sym (value b) (value a)), Hab. reflexivity. }
  repeat split.
  - intros p0 rest. exists (changesAfter p0 rest). apply getChangesOnly_cons.
  - intros [| p0 rest]; [reflexivity |].
    now rewrite getChangesOnly_cons, changesOnlySpec_cons.
  - intros a b c post Hca Hab. exists (changesAfter c post).
    now rewrite getChangesOnly_cons, Haba.
  - intros pre q a b c post Hca Hab. exists (changesAfter c post).
    rewrite getChangesOnly_app. f_equal.
    cbn [changesAfter]. rewrite <- (Haba a b c post Hca Hab).
    now destruct (differs a q).
Qed.

Lemma getChangesOnly_keeps_every_change_witness :
  let q := {| date := "2020-03-11"; value := 0.25 |} in
  let a := {| date := "2020-03-19"; value := 0.5 |} in
  let b := {| date := "2021-12-16"; value := 0.25 |} in
  let c := {| date := "2022-02-03"; value := 0.5 |} in
  value c = value a
  /\ PrimFloat.eqb (value a) (value b) = false
  /\ exists tail,
       getChangesOnly ([] ++ q :: a :: b :: c :: [])
       = getChangesOnly ([] ++ [q]) ++ (if differs a q then [a] else []) ++ b :: c :: tail.
Proof.
  intros q a b c.
  refine (conj eq_refl (conj eq_refl _)).
  exact (proj2 (proj2 (proj2 (proj2 getChangesOnly_keeps_every_change)))
           [] q a b c [] eq_refl eq_refl).
Defined.

(** C1 as stated fails when the first of the three points repeats the value
    before it: on the values A, A, B, A the points 1, 2, 3 carry A, B, A,
    and point 1 is not in the output. *)
Lemma changes_triple_loses_repeated_first :
  let p0 := {| date := "2020-03-11"; value := 0.25 |} in
  let p1 := {| date := "2020-03-19"; value := 0.25 |} in
  let p2 := {| date := "2021-12-16"; value := 0.5 |} in
  let p3 := {| date := "2022-02-03"; value := 0.25 |} in
  value p3 = value p1
  /\ PrimFloat.eqb (value p1) (value p2) = false
  /\ getChangesOnly [p0; p1; p2; p3] = [p0; p2; p3]
  /\ ~ In p1 (getChangesOnly [p0; p1; p2; p3]).
Proof.
  intros p0 p1 p2 p3.
  split; [reflexivity |]. split; [reflexivity |]. split; [reflexivity |].
  intros [H | [H | [H | []]]]; discriminate.
Qed.

Lemma latest_last (l : list DataPoint) : latest l = last l.
Proof.
  unfold latest. destruct l as [| x l]; [reflexivity |].
  cbn [length]. replace (S (length l) - 1) with (length l) by lia.
  revert x. induction l as [| y l IH]; intros x; [reflexivity |].
  cbn [length nth_error]. rewrite IH. reflexivity.
Qed.

Lemma last_changes_value (rest : list DataPoint) (p0 : DataPoint) :
  (forall p, In p (p0 :: rest) -> PrimFloat.is_nan (value p) = false) ->
  exists l pl,
    last (p0 :: changesAfter p0 rest) = Some l
    /\ last (p0 :: rest) = Some pl
    /\ PrimFloat.eqb (value l) (value pl) = true.
Proof.
  revert p0. induction rest as [| y rest IH]; intros p0 Hnan.
  - exists p0, p0. repeat split. apply strictEq_refl, Hnan. now left.
  - destruct (IH y) as (l & pl & Hl & Hpl & Heq).
    { intros p Hp. apply Hnan. now right. }
    cbn [changesAfter]. unfold differs.
    destruct (PrimFloat.eqb (value y) (value p0)) eqn:Hsame; cbn [negb].
    + destruct (changesAfter y rest) as [| z tail] eqn:Htail.
      * exists p0, pl. repeat split; [exact Hpl |].
        cbn in Hl. injection Hl as <-.
        rewrite strictEq_sym in Hsame. eapply strictEq_trans; eassumption.
      * exists l, pl. repeat split; assumption.
    + exists l, pl. repeat split; assumption.
Qed.

(** C10: on a non-empty series without NaN, the value of [latest] (the
    last element of [changesOnly]) is the value of the last point of the
    full series, under the strict equality of numbers. *)
Theorem latest_value_is_last_value :
  forall points : list DataPoint,
    points <> [] ->
    (forall p, In p points -> PrimFloat.is_nan (value p) = false) ->
    exists l pl,
      latest (getChangesOnly points) = Some l
      /\ last points = Some pl
      /\ PrimFloat.eqb (value l) (value pl) = true.
Proof.
  intros [| p0 rest] Hne Hnan; [contradiction |].
  rewrite latest_last, getChangesOnly_cons.
  now apply last_changes_value.
Qed.

End ChangesOnlyFacts.

(** *** [findCubesRecursive] *)

Section FindCubesFacts.
Import Route.

Lemma findCubesRecursive_unfold (obj : JSValue) (depth : nat) :
  findCubesRecursive obj depth
  = if (5 <? depth)%nat then []
    else cubesUnder obj "Cube" ++ cubesUnder obj "cube" ++ nestedCubes obj depth.
Proof.
  unfold nestedCubes.
  destruct obj as [| | b | x | s | items | props]; cbn [findCubesRecursive ownValues];
    try reflexivity.
  destruct (5 <? depth)%nat; [reflexivity |]. do 2 f_equal.
  induction props as [| [k v] props IH]; [reflexivity |].
  cbn [flat_map map snd]. now rewrite IH.
Qed.

Lemma findCubesRecursive_sound (n : nat) :
  forall root depth x,
    6 - depth <= n ->
    In x (findCubesRecursive root depth) -> InSearchedCubes root x depth.
Proof.
  induction n as [| n IH]; intros root depth x Hn Hin;
    rewrite findCubesRecursive_unfold in Hin;
    destruct (5 <? depth)%nat eqn:Hdepth; try contradiction;
    apply Nat.ltb_ge in Hdepth; try lia.
  rewrite app_assoc in Hin. apply in_app_or in Hin as [Hown | Hnested].
  - exists 0, root. repeat split; [lia | constructor | exact Hown].
  - unfold nestedCubes in Hnested. apply in_flat_map in Hnested as (v & Hv & Hx).
    destruct (isPlainObject v) eqn:Hplain; [| contradiction].
    apply IH in Hx; [| lia].
    destruct Hx as (d & o & Hd & Hpath & Hcube).
    exists (S d), o. repeat split; [lia | econstructor; eassumption | exact Hcube].
Qed.

Lemma findCubesRecursive_complete (d : nat) (root o : JSValue) :
  Below isPlainObject d root o ->
  forall depth x,
    depth + d <= 5 -> In x (cubesOf o) -> In x (findCubesRecursive root depth).
Proof.
  induction 1 as [root | d root v o Hv Hplain Hpath IH]; intros depth x Hd Hx;
    rewrite findCubesRecursive_unfold;
    replace (5 <? depth)%nat with false by (symmetry; apply Nat.ltb_ge; lia);
    rewrite app_assoc; apply in_or_app.
  - now left.
  - right. unfold nestedCubes. apply in_flat_map. exists v. split; [exact Hv |].
    rewrite Hplain. apply IH; [lia | exact Hx].
Qed.

(** C6, as the code has it: the search returns, in pre-order (the node's
    own [Cube] values, then its [cube] values, then the results of its
    object-valued properties in enumeration order), exactly the values
    stored under a [Cube] or [cube] key of the root and of the objects
    reached from it through at most five nested properties whose values are
    objects and not arrays. *)
Theorem findCubesRecursive_collects_object_paths :
  forall root : JSValue,
    (forall x, In x (findCubesRecursive root 0) <-> InSearchedCubes root x 0)
    /\ (forall obj depth,
          depth <= 5 ->
          findCubesRecursive obj depth
          = cubesUnder obj "Cube" ++ cubesUnder obj "cube" ++ nestedCubes obj depth)
    /\ (forall obj depth, 5 < depth -> findCubesRecursive obj depth = []).
Proof.
  intros root. repeat split.
  - apply (findCubesRecursive_sound 6). lia.
  - intros (d & o & Hd & Hpath & Hx).
    eapply findCubesRecursive_complete; eassumption.
  - intros obj depth Hd. rewrite findCubesRecursive_unfold.
    now replace (5 <? depth)%nat with false by (symmetry; apply Nat.ltb_ge; lia).
  - intros obj depth Hd. rewrite findCubesRecursive_unfold.
    now replace (5 <? depth)%nat with true by (symmetry; apply Nat.ltb_lt; lia).
Qed.

(** C6 as stated fails there: the node is stored under a [Cube] key two
    levels below the root, and the search returns nothing. *)
Lemma findCubesRecursive_skips_arrays :
  InSubtreeCubes cubeInsideArray
    (JObject [("@_TIME", JString "2020-03-19"); ("@_OBS_VALUE", JString "0.5")])
  /\ findCubesRecursive cubeInsideArray 0 = [].
Proof.
  split; [| reflexivity].
  exists 2, (JObject [("Cube",
    JObject [("@_TIME", JString "2020-03-19"); ("@_OBS_VALUE", JString "0.5")])]).
  repeat split.
  - lia.
  - eapply below_step; [left; reflexivity | reflexivity |].
    eapply below_step; [left; reflexivity | reflexivity | constructor].
  - left. reflexivity.
Qed.

End FindCubesFacts.

(** *** [parseDataPoints] *)

Section ParseFacts.
Import Route.
Variable parseFloat : string -> float.
Variable numberToString : float -> string.
Variable localeCompare : string -> string -> Z.

Local Abbreviation extractValue := (Route.extractValue numberToString).
Local Abbreviation readPoint := (Route.readPoint parseFloat numberToString).
Local Abbreviation visitObservation := (Route.visitObservation parseFloat numberToString).
Local Abbreviation collectPoints := (Route.collectPoints parseFloat numberToString).
Local Abbreviation insertPoint := (Route.insertPoint localeCompare).
Local Abbreviation sortPoints := (Route.sortPoints localeCompare).
Local Abbreviation parseDataPoints :=
  (Route.parseDataPoints parseFloat numberToString localeCompare).
Local Abbreviation reading := (Route.reading numberToString).
Local Abbreviation readingsOf := (Route.readingsOf numberToString).
Local Abbreviation readings := (Route.readings numberToString).
Local Abbreviation addReading := (Route.addReading parseFloat).
Local Abbreviation Collects := (Route.Collects parseFloat).
Local Abbreviation collatesLexicographically :=
  (Route.collatesLexicographically localeCompare).

Lemma readPoint_reading (st : Collected) (node : JSValue) :
  readPoint st node
  = match reading node with Some r => addReading st r | None => st end.
Proof.
  unfold Route.readPoint, Route.reading, Route.addReading. destruct st as [points seenDates].
  destruct (orElse _ _) as [t |]; [| reflexivity].
  destruct (Route.extractValue numberToString node "OBS_VALUE") as [v |]; [| reflexivity].
  destruct (truthyStr (Some t) && truthyStr (Some v)); reflexivity.
Qed.

Lemma fold_readPoint (nodes : list JSValue) (st : Collected) :
  fold_left readPoint nodes st = fold_left addReading (readingsOf nodes) st.
Proof.
  revert st. induction nodes as [| node nodes IH]; intros st; [reflexivity |].
  cbn [fold_left Route.readingsOf flat_map]. rewrite IH, readPoint_reading.
  fold (readingsOf nodes).
  destruct (reading node); reflexivity.
Qed.

Lemma fold_skipping (skip : JSValue -> bool) (nodes : list JSValue) (st : Collected) :
  fold_left (fun st cube => if skip cube then st else readPoint st cube) nodes st
  = fold_left readPoint (List.filter (fun cube => negb (skip cube)) nodes) st.
Proof.
  revert st. induction nodes as [| node nodes IH]; intros st; [reflexivity |].
  cbn [fold_left List.filter]. destruct (skip node); cbn [negb fold_left]; apply IH.
Qed.

Lemma visitObservation_candidates (st : Collected) (obs : JSValue) :
  visitObservation st obs = fold_left readPoint (candidatesOf obs) st.
Proof.
  unfold Route.visitObservation, Route.candidatesOf.
  destruct (negb (truthy obs) || negb (typeofObject obs)); [reflexivity |].
  destruct (truthy (if truthy (getProp obs "Cube") then getProp obs "Cube"
                    else getProp obs "cube")); [| reflexivity].
  apply (fold_skipping (fun cube => negb (truthy cube) || negb (typeofObject cube))).
Qed.

Lemma readingsOf_app (l1 l2 : list JSValue) :
  readingsOf (l1 ++ l2) = readingsOf l1 ++ readingsOf l2.
Proof. unfold Route.readingsOf. apply flat_map_app. Qed.

Lemma fold_visitObservation (observations : list JSValue) (st : Collected) :
  fold_left visitObservation observations st
  = fold_left addReading (readings observations) st.
Proof.
  unfold Route.readings. revert st.
  induction observations as [| obs observations IH]; intros st; [reflexivity |].
  cbn [fold_left flat_map].
  rewrite IH, visitObservation_candidates, fold_readPoint, readingsOf_app.
  now rewrite fold_left_app.
Qed.

Lemma firstReading_snoc (d : string) (rs : list (string * string)) (t v : string) :
  firstReading d (rs ++ [(t, v)])
  = match firstReading d rs with
    | Some x => Some x
    | None => if String.eqb t d then Some v else None
    end.
Proof.
  induction rs as [| [t' v'] rs IH]; cbn [app firstReading]; [reflexivity |].
  destruct (String.eqb t' d); [reflexivity | exact IH].
Qed.

Lemma firstReading_In (d : string) (rs : list (string * string)) :
  In d (map fst rs) <-> exists v, firstReading d rs = Some v.
Proof.
  induction rs as [| [t v] rs IH]; cbn [map fst In firstReading].
  - split; [contradiction | intros [v Hv]; discriminate].
  - destruct (String.eqb t d) eqn:Htd.
    + apply String.eqb_eq in Htd. split; eauto.
    + apply String.eqb_neq in Htd. rewrite <- IH. tauto.
Qed.

Lemma Collects_start : Collects [] ([], ∅).
Proof.
  split; cbn.
  - intros d. split; [intros Hd; now apply not_elem_of_empty in Hd | intros [v Hv]; discriminate].
  - intros p. split; [contradiction | intros (v & Hv & _); discriminate].
  - constructor.
Qed.

Lemma Collects_step (rs : list (string * string)) (st : Collected) (r : string * string) :
  Collects rs st -> Collects (rs ++ [r]) (addReading st r).
Proof.
  destruct st as [points seenDates], r as [t v]. intros [Hseen Hpoints Hnodup].
  cbn [fst snd] in *. unfold Route.addReading. cbn [fst snd].
  destruct (decide (t ∈ seenDates)) as [Hin | Hnew].
  - apply Hseen in Hin as [v0 Hv0].
    split; cbn [fst snd]; [| | exact Hnodup].
    + intros d. rewrite Hseen, firstReading_snoc.
      destruct (firstReading d rs) as [x |] eqn:Hd; [tauto |].
      destruct (String.eqb t d) eqn:Htd; [| tauto].
      apply String.eqb_eq in Htd. congruence.
    + intros p. rewrite Hpoints, firstReading_snoc.
      destruct (firstReading (date p) rs) as [x |] eqn:Hd; [tauto |].
      destruct (String.eqb t (date p)) eqn:Htd; [| tauto].
      apply String.eqb_eq in Htd. congruence.
  - assert (Hnone : firstReading t rs = None).
    { destruct (firstReading t rs) as [x |] eqn:Ht; [| reflexivity].
      exfalso. apply Hnew, Hseen. eauto. }
    split; cbn [fst snd].
    + intros d. rewrite elem_of_union, elem_of_singleton, Hseen, firstReading_snoc.
      destruct (firstReading d rs) as [x |] eqn:Hd.
      * split; eauto.
      * destruct (String.eqb t d) eqn:Htd.
        -- apply String.eqb_eq in Htd. split; eauto.
        -- apply String.eqb_neq in Htd.
           split; [intros [-> | [x Hx]]; [congruence | discriminate]
                  | intros [x Hx]; discriminate].
    + intros p. rewrite in_app_iff, Hpoints, firstReading_snoc. cbn [In].
      destruct (firstReading (date p) rs) as [x |] eqn:Hd.
      * split; [intros [H | [H | []]]; [exact H |] | tauto].
        subst p. cbn [date] in Hd. congruence.
      * destruct (String.eqb t (date p)) eqn:Htd.
        -- apply String.eqb_eq in Htd.
           split.
           ++ intros [(x & Hx & _) | [<- | []]]; [discriminate |].
              exists v. now split.
           ++ intros (x & [= <-] & Hval). right. left.
              destruct p as [dp vp]. cbn [date value] in *. congruence.
        -- apply String.eqb_neq in Htd.
           split; [intros [(x & Hx & _) | [<- | []]]; [discriminate | now cbn in Htd]
                  | intros (x & Hx & _); discriminate].
    + rewrite map_app. cbn [map date]. apply NoDup_app. repeat split.
      * exact Hnodup.
      * intros d Hd Hd'. apply list_elem_of_singleton in Hd'. subst d.
        apply list_elem_of_In, in_map_iff in Hd as (p & Hp & Hin).
        apply Hpoints in Hin as (x & Hx & _). congruence.
      * apply NoDup_singleton.
Qed.

Lemma Collects_fold (rs done : list (string * string)) (st : Collected) :
  Collects done st -> Collects (done ++ rs) (fold_left addReading rs st).
Proof.
  revert done st. induction rs as [| r rs IH]; intros done st Hst.
  - now rewrite app_nil_r.
  - cbn [fold_left].
    replace (done ++ r :: rs) with ((done ++ [r]) ++ rs) by now rewrite <- app_assoc.
    apply IH, Collects_step, Hst.
Qed.

Lemma collectPoints_Collects (observations : list JSValue) :
  Collects (readings observations)
    (fold_left visitObservation observations ([], ∅)).
Proof.
  rewrite fold_visitObservation.
  exact (Collects_fold (readings observations) [] _ Collects_start).
Qed.

Lemma insertPoint_Permutation (p : DataPoint) (l : list DataPoint) :
  Permutation (p :: l) (insertPoint p l).
Proof.
  induction l as [| q l IH]; cbn [Route.insertPoint]; [reflexivity |].
  destruct (localeCompare (date p) (date q) >? 0)%Z; [| reflexivity].
  rewrite perm_swap. now apply perm_skip.
Qed.

Lemma sortPoints_Permutation (l : list DataPoint) : Permutation l (sortPoints l).
Proof.
  induction l as [| p l IH]; cbn; [reflexivity |].
  rewrite <- insertPoint_Permutation. now apply perm_skip.
Qed.

Lemma collation_gt (dates : list string) (a b : string) :
  collatesLexicographically dates -> In a dates -> In b dates ->
  (localeCompare a b >? 0)%Z = true <-> String_as_OT.lt b a.
Proof.
  intros Hcol Ha Hb. unfold Z.gtb. rewrite (Hcol a b Ha Hb).
  destruct (String_as_OT.compare_spec a b) as [Heq | Hlt | Hgt].
  - red in Heq. subst b. split; [discriminate |]. intros H.
    destruct (StrictOrder_Irreflexive (R := String_as_OT.lt) a H).
  - split; [discriminate |]. intros H.
    destruct (StrictOrder_Irreflexive (R := String_as_OT.lt) a
                (StrictOrder_Transitive a b a Hlt H)).
  - tauto.
Qed.

Lemma collation_not_gt (dates : list string) (a b : string) :
  collatesLexicographically dates -> In a dates -> In b dates -> a <> b ->
  (localeCompare a b >? 0)%Z = false -> String_as_OT.lt a b.
Proof.
  intros Hcol Ha Hb Hne. unfold Z.gtb. rewrite (Hcol a b Ha Hb).
  destruct (String_as_OT.compare_spec a b) as [Heq | Hlt | Hgt];
    [now destruct (Hne Heq) | trivial | discriminate].
Qed.

Lemma insertPoint_HdRel (q p : DataPoint) (l : list DataPoint) :
  dateLt q p -> HdRel dateLt q l -> HdRel dateLt q (insertPoint p l).
Proof.
  intros Hqp Hhd. destruct l as [| r l]; cbn [Route.insertPoint].
  - now constructor.
  - destruct (localeCompare (date p) (date r) >? 0)%Z; constructor;
      [now inversion Hhd | exact Hqp].
Qed.

Lemma insertPoint_Sorted (p : DataPoint) (l : list DataPoint) :
  collatesLexicographically (map date (p :: l)) ->
  ~ In (date p) (map date l) ->
  Sorted dateLt l -> Sorted dateLt (insertPoint p l).
Proof.
  intros Hcol Hfresh Hsorted.
  induction l as [| q l IH]; cbn [Route.insertPoint].
  - repeat constructor.
  - assert (Hp : In (date p) (map date (p :: q :: l))) by now left.
    assert (Hq : In (date q) (map date (p :: q :: l))) by (right; now left).
    destruct (localeCompare (date p) (date q) >? 0)%Z eqn:Hcmp.
    + apply (collation_gt _ _ _ Hcol Hp Hq) in Hcmp.
      inversion Hsorted as [| ? ? Hl Hhd]; subst.
      constructor.
      * apply IH; [| | exact Hl].
        -- intros a b Ha Hb. apply Hcol; cbn [map In] in *; tauto.
        -- intros Hin. apply Hfresh. now right.
      * now apply insertPoint_HdRel.
    + constructor; [exact Hsorted |]. constructor.
      apply (collation_not_gt _ _ _ Hcol Hp Hq); [| exact Hcmp].
      intros Heq. apply Hfresh. left. now symmetry.
Qed.

Lemma sortPoints_Sorted (l : list DataPoint) :
  collatesLexicographically (map date l) ->
  List.NoDup (map date l) ->
  Sorted dateLt (sortPoints l).
Proof.
  induction l as [| p l IH]; intros Hcol Hnodup; cbn; [constructor |].
  inversion Hnodup as [| ? ? Hfresh Hrest]; subst.
  assert (Hperm : Permutation (map date l) (map date (sortPoints l)))
    by apply Permutation_map, sortPoints_Permutation.
  apply insertPoint_Sorted.
  - intros a b Ha Hb. apply Hcol; cbn [map In] in *.
    + destruct Ha as [Ha | Ha]; [now left | right].
      eapply Permutation_in; [symmetry; exact Hperm | exact Ha].
    + destruct Hb as [Hb | Hb]; [now left | right].
      eapply Permutation_in; [symmetry; exact Hperm | exact Hb].
  - intros Hin. apply Hfresh.
    eapply Permutation_in; [symmetry; exact Hperm | exact Hin].
  - apply IH; [| exact Hrest].
    intros a b Ha Hb. apply Hcol; now right.
Qed.

#[local] Instance dateLt_transitive : Transitive dateLt.
Proof. intros p q r. unfold dateLt. apply transitivity. Qed.

(** C2, as the code has it: for every list of observations no date occurs
    twice in the output of [parseDataPoints], and the point of a date
    carries the value of the first contribution with that date in input
    order; the output is strictly ascending by date under the lexicographic
    comparison when the host's collation orders the dates that occur as that
    comparison does. *)
Theorem parseDataPoints_sorted_first_wins :
  forall observations : list JSValue,
    (collatesLexicographically (map fst (readings observations)) ->
     StronglySorted dateLt (parseDataPoints observations))
    /\ List.NoDup (map date (parseDataPoints observations))
    /\ (forall p,
          In p (parseDataPoints observations) <->
          exists v, firstReading (date p) (readings observations) = Some v
                    /\ value p = parseFloat v).
Proof.
  intros observations.
  destruct (collectPoints_Collects observations) as [_ Hpoints Hnodup].
  fold (collectPoints observations) in Hpoints, Hnodup.
  apply NoDup_ListNoDup in Hnodup.
  assert (Hperm : Permutation (collectPoints observations) (parseDataPoints observations))
    by apply sortPoints_Permutation.
  assert (Hdates : forall d, In d (map date (collectPoints observations)) ->
                             In d (map fst (readings observations))).
  { intros d (p & <- & Hp)%in_map_iff.
    apply firstReading_In. apply Hpoints in Hp as (v & Hv & _). eauto. }
  split; [| split; [| split]].
  - intros Hcol.
    apply Sorted_StronglySorted; [exact dateLt_transitive |].
    apply sortPoints_Sorted; [| exact Hnodup].
    intros a b Ha Hb. apply Hcol; auto.
  - eapply Permutation_NoDup; [apply Permutation_map; exact Hperm | exact Hnodup].
  - intros Hp. apply Hpoints. eapply Permutation_in; [symmetry; exact Hperm | exact Hp].
  - intros Hp. eapply Permutation_in; [exact Hperm |]. now apply Hpoints.
Qed.

End ParseFacts.

(** ** Sample runs *)

Section Samples.
Import Route.

Lemma lexOrder_collates (dates : list string) :
  collatesLexicographically lexOrder dates.
Proof.
  intros a b _ _. unfold lexOrder.
  destruct (String_as_OT.compare a b); reflexivity.
Defined.

Example parseDataPoints_sample :
  parseDataPoints sampleParseFloat sampleNumberToString lexOrder sampleObservations
  = [ {| date := "2020-03-11"; value := 0.25 |};
      {| date := "2020-03-19"; value := 0.5 |} ].
Proof. vm_compute. reflexivity. Qed.

Lemma parseDataPoints_sorted_first_wins_witness :
  collatesLexicographically lexOrder
    (map fst (readings sampleNumberToString sampleObservations))
  /\ StronglySorted dateLt
       (parseDataPoints sampleParseFloat sampleNumberToString lexOrder sampleObservations)
  /\ List.NoDup
       (map date
          (parseDataPoints sampleParseFloat sampleNumberToString lexOrder sampleObservations))
  /\ (forall p,
        In p (parseDataPoints sampleParseFloat sampleNumberToString lexOrder
                sampleObservations) <->
        exists v,
          firstReading (date p) (readings sampleNumberToString sampleObservations) = Some v
          /\ value p = sampleParseFloat v).
Proof.
  exact (conj (lexOrder_collates _)
           (conj (proj1 (parseDataPoints_sorted_first_wins sampleParseFloat
                           sampleNumberToString lexOrder sampleObservations)
                    (lexOrder_collates _))
                 (proj2 (parseDataPoints_sorted_first_wins sampleParseFloat
                           sampleNumberToString lexOrder sampleObservations)))).
Defined.

(** C2 as stated fails on dates that are not canonical: the sort is by
    [localeCompare], and a collation that ranks letters before their case
    puts April before March, which the lexicographic comparison of the
    character codes orders the other way round. *)
Lemma locale_collation_is_not_lexicographic :
  parseDataPoints sampleParseFloat sampleNumberToString localeOrder monthNameObservations
  = [ {| date := "2020-apr-02"; value := 0.5 |};
      {| date := "2020-Mar-19"; value := 0.25 |} ]
  /\ (localeOrder "2020-apr-02" "2020-Mar-19" < 0)%Z
  /\ String_as_OT.lt "2020-Mar-19" "2020-apr-02"
  /\ ~ StronglySorted dateLt
        (parseDataPoints sampleParseFloat sampleNumberToString localeOrder
           monthNameObservations).
Proof.
  assert (Hrun : parseDataPoints sampleParseFloat sampleNumberToString localeOrder
                   monthNameObservations
                 = [ {| date := "2020-apr-02"; value := 0.5 |};
                     {| date := "2020-Mar-19"; value := 0.25 |} ])
    by (vm_compute; reflexivity).
  assert (Hlt : String_as_OT.lt "2020-Mar-19" "2020-apr-02") by reflexivity.
  split; [exact Hrun |]. split; [reflexivity |]. split; [exact Hlt |].
  rewrite Hrun. intros Hsorted.
  apply StronglySorted_inv in Hsorted as [_ Hall].
  apply Forall_inv in Hall. unfold dateLt in Hall. cbn [date] in Hall.
  exact (StrictOrder_Irreflexive (R := String_as_OT.lt) _
           (StrictOrder_Transitive _ _ _ Hall Hlt)).
Qed.

Example extractValue_sample :
  extractValue sampleNumberToString bothForms "OBS_VALUE" = Some "0.25"
  /\ extractValue sampleNumberToString bothForms "TIME" = None
  /\ extractValue sampleNumberToString (JString "OBS_VALUE") "OBS_VALUE" = None.
Proof. repeat split. Qed.

Lemma extractValue_prefers_attribute_witness :
  notNullish (getProp bothForms "@_OBS_VALUE") = true
  /\ notNullish (getProp bothForms "OBS_VALUE") = true
  /\ extractValue sampleNumberToString bothForms "OBS_VALUE" = Some "0.25".
Proof.
  refine (conj eq_refl (conj eq_refl _)).
  exact (proj1 (extractValue_prefers_attribute sampleNumberToString bothForms "OBS_VALUE")
           eq_refl eq_refl).
Defined.

Example findCubesRecursive_sample :
  findCubesRecursive nestedCubeDocument 0
  = [ JObject [("Cube", JArray [cubeNode "2020-03-11" "0.25";
                                cubeNode "2020-03-19" "0.5"])];
      cubeNode "2020-03-11" "0.25";
      cubeNode "2020-03-19" "0.5" ].
Proof. reflexivity. Qed.

Lemma findCubesRecursive_collects_object_paths_witness :
  InSearchedCubes nestedCubeDocument (cubeNode "2020-03-19" "0.5") 0
  /\ In (cubeNode "2020-03-19" "0.5") (findCubesRecursive nestedCubeDocument 0).
Proof.
  assert (Hsearched : InSearchedCubes nestedCubeDocument (cubeNode "2020-03-19" "0.5") 0).
  { exists 1, (JObject [("Cube", JArray [cubeNode "2020-03-11" "0.25";
                                         cubeNode "2020-03-19" "0.5"])]).
    repeat split.
    - repeat constructor.
    - eapply below_step; [right; left; reflexivity | reflexivity | constructor].
    - right. left. reflexivity. }
  split; [exact Hsearched |].
  exact (proj2 (proj1 (findCubesRecursive_collects_object_paths nestedCubeDocument) _)
           Hsearched).
Defined.

Example getChangesOnly_sample :
  getChangesOnly sampleSeries
  = [ {| date := "2020-03-11"; value := 0.25 |};
      {| date := "2020-03-19"; value := 0.5 |} ]
  /\ latest (getChangesOnly sampleSeries)
     = Some {| date := "2020-03-19"; value := 0.5 |}.
Proof. split; reflexivity. Qed.

Lemma latest_value_is_last_value_witness :
  sampleSeries <> []
  /\ (forall p, In p sampleSeries -> PrimFloat.is_nan (value p) = false)
  /\ exists l pl,
       latest (getChangesOnly sampleSeries) = Some l
       /\ last sampleSeries = Some pl
       /\ PrimFloat.eqb (value l) (value pl) = true.
Proof.
  assert (Hne : sampleSeries <> []) by discriminate.
  assert (Hnan : forall p, In p sampleSeries -> PrimFloat.is_nan (value p) = false).
  { intros p [<- | [<- | [<- | []]]]; reflexivity. }
  exact (conj Hne (conj Hnan (latest_value_is_last_value sampleSeries Hne Hnan))).
Defined.

End Samples.

(** * Further properties of the code *)

(** ** [getChangesOnly]: a run-length encoding of the values *)

Section ChangesOnlyInvariants.
Import Route.

Lemma differs_after_same (p prev a : DataPoint) :
  a = prev \/ PrimFloat.eqb (value a) (value prev) = true ->
  differs p prev = true -> differs p a = true.
Proof.
  intros [-> | Hsame] Hd; [exact Hd |].
  unfold differs in *. apply negb_true_iff. apply negb_true_iff in Hd.
  destruct (PrimFloat.eqb (value p) (value a)) eqn:Hpa; [| reflexivity].
  rewrite <- Hd. symmetry. eapply strictEq_trans; eassumption.
Qed.

Lemma same_after_same (p prev a : DataPoint) :
  a = prev \/ PrimFloat.eqb (value a) (value prev) = true ->
  differs p prev = false ->
  a = p \/ PrimFloat.eqb (value a) (value p) = true.
Proof.
  intros Ha Hd. right. unfold differs in Hd. apply negb_false_iff in Hd.
  rewrite strictEq_sym in Hd.
  destruct Ha as [-> | Hsame]; [exact Hd |].
  eapply strictEq_trans; eassumption.
Qed.

Lemma changesAfter_Sorted (rest : list DataPoint) :
  forall prev a,
    a = prev \/ PrimFloat.eqb (value a) (value prev) = true ->
    Sorted valueChanges (a :: changesAfter prev rest).
Proof.
  induction rest as [| p rest IH]; intros prev a Ha; cbn [changesAfter].
  - repeat constructor.
  - destruct (differs p prev) eqn:Hd.
    + constructor; [apply IH; now left |].
      constructor. unfold valueChanges. eapply differs_after_same; eassumption.
    + apply IH. eapply same_after_same; eassumption.
Qed.

Lemma changesAfter_fixed (rest : list DataPoint) :
  forall prev, Sorted valueChanges (prev :: rest) -> changesAfter prev rest = rest.
Proof.
  induction rest as [| p rest IH]; intros prev Hs; [reflexivity |].
  inversion Hs as [| ? ? Hrest Hhd]; subst.
  inversion Hhd as [| ? ? Hch]; subst.
  cbn [changesAfter]. unfold valueChanges in Hch. rewrite Hch.
  f_equal. now apply IH.
Qed.

Lemma changesAfter_sublist (rest : list DataPoint) :
  forall prev, changesAfter prev rest `sublist_of` rest.
Proof.
  induction rest as [| p rest IH]; intros prev; cbn [changesAfter].
  - constructor.
  - destruct (differs p prev); [apply sublist_skip | apply sublist_cons]; apply IH.
Qed.

Lemma changesAfter_constant (rest : list DataPoint) :
  forall prev,
    changesAfter prev rest = [] <->
    (forall p, In p rest -> PrimFloat.eqb (value p) (value prev) = true).
Proof.
  induction rest as [| p rest IH]; intros prev; cbn [changesAfter].
  - split; [intros _ q [] | reflexivity].
  - destruct (differs p prev) eqn:Hd.
    + split; [discriminate |]. intros Hall.
      unfold differs in Hd. apply negb_true_iff in Hd.
      rewrite Hall in Hd by now left. discriminate.
    + unfold differs in Hd. apply negb_false_iff in Hd.
      rewrite IH. split.
      * intros Hall q [<- | Hq]; [exact Hd |].
        eapply strictEq_trans; [apply Hall, Hq | exact Hd].
      * intros Hall q Hq.
        eapply strictEq_trans; [apply Hall; now right |].
        now rewrite strictEq_sym.
Qed.

Lemma StronglySorted_sublist {A : Type} (R : A -> A -> Prop) (l1 l2 : list A) :
  l1 `sublist_of` l2 -> StronglySorted R l2 -> StronglySorted R l1.
Proof.
  induction 1 as [| x l1 l2 Hsub IH | x l1 l2 Hsub IH]; intros Hs.
  - constructor.
  - apply StronglySorted_inv in Hs as [Hs Hall]. constructor; [now apply IH |].
    rewrite List.Forall_forall in *. intros y Hy. apply Hall.
    apply list_elem_of_In. eapply elem_of_sublist; [| exact Hsub].
    now apply list_elem_of_In.
  - apply StronglySorted_inv in Hs as [Hs _]. now apply IH.
Qed.

(** X2: No two neighbours of the output carry the same value (under [===]); a
    series that already has this shape is returned as it is, so deriving
    the changes of the changes gives nothing new. *)
Theorem getChangesOnly_run_length_encoding :
  forall points : list DataPoint,
    Sorted valueChanges (getChangesOnly points)
    /\ (Sorted valueChanges points -> getChangesOnly points = points)
    /\ getChangesOnly (getChangesOnly points) = getChangesOnly points.
Proof.
  assert (Hfix : forall l, Sorted valueChanges l -> getChangesOnly l = l).
  { intros [| p0 rest] Hs; [reflexivity |].
    rewrite getChangesOnly_cons. f_equal. now apply changesAfter_fixed. }
  assert (Hsorted : forall l, Sorted valueChanges (getChangesOnly l)).
  { intros [| p0 rest]; [constructor |].
    rewrite getChangesOnly_cons. apply changesAfter_Sorted. now left. }
  intros points. repeat split; auto.
Qed.

(** X3: The output is a subsequence of the input in the input's order: it is
    no longer than the input, and it is in strictly ascending date order
    whenever the input is. *)
Theorem getChangesOnly_subsequence :
  forall points : list DataPoint,
    getChangesOnly points `sublist_of` points
    /\ length (getChangesOnly points) <= length points
    /\ (StronglySorted dateLt points -> StronglySorted dateLt (getChangesOnly points)).
Proof.
  intros points.
  assert (Hsub : getChangesOnly points `sublist_of` points).
  { destruct points as [| p0 rest]; [constructor |].
    rewrite getChangesOnly_cons. apply sublist_skip, changesAfter_sublist. }
  repeat split.
  - exact Hsub.
  - now apply sublist_length.
  - now apply StronglySorted_sublist.
Qed.

(** X4: A non-empty series collapses to its first point exactly when every
    later value equals the first one (under [===], so none of them NaN). *)
Theorem getChangesOnly_single_run :
  forall (p0 : DataPoint) (rest : list DataPoint),
    getChangesOnly (p0 :: rest) = [p0] <->
    (forall p, In p rest -> PrimFloat.eqb (value p) (value p0) = true).
Proof.
  intros p0 rest. rewrite getChangesOnly_cons, <- changesAfter_constant.
  split; [now intros [= ->] | now intros ->].
Qed.

End ChangesOnlyInvariants.

(** ** [parseDataPoints]: what does not depend on the collation *)

Section ParseInvariants.
Import Route.
Variable parseFloat : string -> float.
Variable numberToString : float -> string.
Variable localeCompare : string -> string -> Z.

Local Abbreviation extractValue := (Route.extractValue numberToString).
Local Abbreviation collectPoints := (Route.collectPoints parseFloat numberToString).
Local Abbreviation sortPoints := (Route.sortPoints localeCompare).
Local Abbreviation parseDataPoints :=
  (Route.parseDataPoints parseFloat numberToString localeCompare).
Local Abbreviation reading := (Route.reading numberToString).
Local Abbreviation readingsOf := (Route.readingsOf numberToString).
Local Abbreviation readings := (Route.readings numberToString).
Local Abbreviation addReading := (Route.addReading parseFloat).
Local Abbreviation pointOf := (Route.pointOf parseFloat).

Lemma reading_nonempty (node : JSValue) (t v : string) :
  reading node = Some (t, v) -> t <> "" /\ v <> "".
Proof.
  unfold Route.reading.
  destruct (orElse _ _) as [t' |]; [| discriminate].
  destruct (Route.extractValue numberToString node "OBS_VALUE") as [v' |]; [| discriminate].
  destruct (truthyStr (Some t') && truthyStr (Some v')) eqn:Htruthy; [| discriminate].
  intros [= -> ->]. apply andb_true_iff in Htruthy as [Ht Hv].
  cbn [truthyStr] in Ht, Hv.
  apply negb_true_iff in Ht, Hv. apply String.eqb_neq in Ht, Hv. now split.
Qed.

Lemma readingsOf_In (nodes : list JSValue) (r : string * string) :
  In r (readingsOf nodes) <-> exists node, In node nodes /\ reading node = Some r.
Proof.
  unfold Route.readingsOf. rewrite in_flat_map. split.
  - intros (node & Hnode & Hr). exists node. split; [exact Hnode |].
    destruct (Route.reading numberToString node) as [r' |]; [| contradiction].
    destruct Hr as [-> | []]. reflexivity.
  - intros (node & Hnode & Hr). exists node. split; [exact Hnode |].
    rewrite Hr. now left.
Qed.

Lemma readingsOf_length (nodes : list JSValue) :
  length (readingsOf nodes) <= length nodes.
Proof.
  unfold Route.readingsOf.
  induction nodes as [| node nodes IH]; cbn [flat_map length]; [lia |].
  rewrite length_app. destruct (Route.reading numberToString node); cbn [length]; lia.
Qed.

Lemma firstReading_Some_In (d v : string) (rs : list (string * string)) :
  firstReading d rs = Some v -> In (d, v) rs.
Proof.
  induction rs as [| [t v'] rs IH]; cbn [firstReading]; [discriminate |].
  destruct (String.eqb t d) eqn:Htd.
  - apply String.eqb_eq in Htd. intros [= ->]. left. now subst.
  - intros H. right. now apply IH.
Qed.

(** X5: Whatever order [localeCompare] imposes: no date occurs twice, a point
    is in the output exactly when its value is the parse of the first
    contribution with its date, no date is the empty string, and there are
    at most as many points as candidate nodes. *)
Theorem parseDataPoints_any_collation :
  forall observations : list JSValue,
    List.NoDup (map date (parseDataPoints observations))
    /\ (forall p,
          In p (parseDataPoints observations) <->
          exists v, firstReading (date p) (readings observations) = Some v
                    /\ value p = parseFloat v)
    /\ (forall p, In p (parseDataPoints observations) -> date p <> "")
    /\ length (parseDataPoints observations)
       <= length (flat_map candidatesOf observations).
Proof.
  intros observations.
  destruct (collectPoints_Collects parseFloat numberToString localeCompare observations)
    as [_ Hpoints Hnodup].
  fold (collectPoints observations) in Hpoints, Hnodup.
  apply NoDup_ListNoDup in Hnodup.
  assert (Hperm : Permutation (collectPoints observations) (parseDataPoints observations))
    by apply sortPoints_Permutation.
  assert (Hmem : forall p,
             In p (parseDataPoints observations) <->
             exists v, firstReading (date p) (readings observations) = Some v
                       /\ value p = parseFloat v).
  { intros p. rewrite <- Hpoints. split; apply Permutation_in;
      [symmetry; exact Hperm | exact Hperm]. }
  assert (Hdates : List.NoDup (map date (parseDataPoints observations))).
  { eapply Permutation_NoDup; [apply Permutation_map; exact Hperm | exact Hnodup]. }
  repeat split.
  - exact Hdates.
  - apply Hmem.
  - apply Hmem.
  - intros p Hp Hempty. apply Hmem in Hp as (v & Hv & _).
    apply firstReading_Some_In in Hv.
    apply readingsOf_In in Hv as (node & _ & Hr).
    apply reading_nonempty in Hr as [Ht _]. contradiction.
  - transitivity (length (readings observations)); [| apply readingsOf_length].
    rewrite <- (length_map date), <- (length_map fst (readings observations)).
    apply NoDup_incl_length; [exact Hdates |].
    intros d (p & <- & Hp)%in_map_iff.
    apply Hmem in Hp as (v & Hv & _).
    apply (firstReading_In parseFloat numberToString localeCompare). eauto.
Qed.

Lemma readings_app (l1 l2 : list JSValue) :
  readings (l1 ++ l2) = readings l1 ++ readings l2.
Proof.
  unfold Route.readings. rewrite flat_map_app. apply readingsOf_app.
Qed.

Lemma parseDataPoints_by_readings (obs1 obs2 : list JSValue) :
  readings obs1 = readings obs2 -> parseDataPoints obs1 = parseDataPoints obs2.
Proof.
  intros Heq. unfold Route.parseDataPoints, Route.collectPoints.
  now rewrite !fold_visitObservation, Heq.
Qed.

Lemma readings_direct (obs : JSValue) :
  truthy obs && typeofObject obs = true ->
  truthy (orValue (getProp obs "Cube") (getProp obs "cube")) = false ->
  readings [obs] = match reading obs with Some r => [r] | None => [] end.
Proof.
  intros Hobj Hcube. unfold Route.readings, candidatesOf. cbn [flat_map].
  apply andb_true_iff in Hobj as [-> ->]. cbn [negb orb].
  unfold orValue in Hcube. rewrite Hcube. cbn. now rewrite !app_nil_r.
Qed.

Lemma readings_skipped (obs : JSValue) :
  negb (truthy obs) || negb (typeofObject obs) = true -> readings [obs] = [].
Proof.
  intros Hskip. unfold Route.readings, candidatesOf. cbn [flat_map].
  now rewrite Hskip.
Qed.

Lemma readings_of_items (items : list JSValue) :
  (forall c, In c items ->
     truthy (orValue (getProp c "Cube") (getProp c "cube")) = false) ->
  readings items
  = readingsOf (List.filter
                  (fun cube => negb (negb (truthy cube) || negb (typeofObject cube)))
                  items).
Proof.
  induction items as [| c items IH]; intros Hplain; [reflexivity |].
  change (c :: items) with ([c] ++ items). rewrite readings_app.
  rewrite IH by (intros c' Hc'; apply Hplain; now right).
  cbn [app List.filter].
  destruct (negb (truthy c) || negb (typeofObject c)) eqn:Hskip; cbn [negb].
  - now rewrite readings_skipped.
  - rewrite readings_direct.
    + reflexivity.
    + apply orb_false_iff in Hskip as [Ht Ho].
      apply negb_false_iff in Ht, Ho. now rewrite Ht, Ho.
    + apply Hplain. now left.
Qed.

(** X6: An observation that is not an object, and an observation without a
    [Cube] that lacks a date or a value, leave the result as it is without
    them. *)
Theorem parseDataPoints_ignores_silent_observations :
  forall (before : list JSValue) (obs : JSValue) (after : list JSValue),
    negb (truthy obs) || negb (typeofObject obs) = true
    \/ (truthy (orValue (getProp obs "Cube") (getProp obs "cube")) = false
        /\ reading obs = None) ->
    parseDataPoints (before ++ obs :: after) = parseDataPoints (before ++ after).
Proof.
  intros before obs after Hsilent.
  apply parseDataPoints_by_readings.
  change (obs :: after) with ([obs] ++ after).
  rewrite !readings_app.
  assert (Hnone : readings [obs] = []).
  { destruct Hsilent as [Hskip | [Hcube Hread]]; [now apply readings_skipped |].
    destruct (negb (truthy obs) || negb (typeofObject obs)) eqn:Hskip;
      [now apply readings_skipped |].
    rewrite readings_direct, Hread; [reflexivity | | exact Hcube].
    apply orb_false_iff in Hskip as [Ht Ho].
    apply negb_false_iff in Ht, Ho. now rewrite Ht, Ho. }
  now rewrite Hnone.
Qed.

Lemma readings_wrapper (wrapper : JSValue) (items : list JSValue) :
  orValue (getProp wrapper "Cube") (getProp wrapper "cube") = JArray items ->
  (forall c, In c items ->
     truthy (orValue (getProp c "Cube") (getProp c "cube")) = false) ->
  readings [wrapper] = readings items.
Proof.
  intros Hcube Hplain.
  rewrite (readings_of_items items) by exact Hplain.
  unfold Route.readings, candidatesOf. cbn [flat_map]. rewrite app_nil_r.
  assert (Hobj : exists props, wrapper = JObject props).
  { unfold orValue in Hcube.
    destruct (truthy (getProp wrapper "Cube"));
      eapply getProp_present_object; rewrite Hcube; reflexivity. }
  destruct Hobj as [props ->]. cbn [truthy typeofObject negb orb].
  unfold orValue in Hcube. rewrite Hcube. reflexivity.
Qed.

(** X7: An observation whose [Cube] (or [cube]) is an array of nodes that hold
    no [Cube] themselves counts as those nodes listed in its place. *)
Theorem parseDataPoints_flattens_wrapper :
  forall (before : list JSValue) (wrapper : JSValue) (items after : list JSValue),
    orValue (getProp wrapper "Cube") (getProp wrapper "cube") = JArray items ->
    (forall c, In c items ->
       truthy (orValue (getProp c "Cube") (getProp c "cube")) = false) ->
    parseDataPoints (before ++ wrapper :: after)
    = parseDataPoints (before ++ items ++ after).
Proof.
  intros before wrapper items after Hcube Hplain.
  apply parseDataPoints_by_readings.
  change (wrapper :: after) with ([wrapper] ++ after).
  rewrite !readings_app. do 2 f_equal.
  now apply readings_wrapper.
Qed.

Lemma reading_pointNode (dialect : Dialect) (r : string * string) :
  fst r <> "" -> snd r <> "" -> reading (pointNode dialect r) = Some r.
Proof.
  destruct r as [t v]. cbn [fst snd]. intros Ht Hv.
  destruct t as [| a t]; [contradiction |].
  destruct v as [| b v]; [contradiction |].
  destruct dialect; reflexivity.
Qed.

Lemma readings_pointNodes (entries : list (Dialect * (string * string))) :
  (forall d r, In (d, r) entries -> fst r <> "" /\ snd r <> "") ->
  readings (map (fun e => pointNode (fst e) (snd e)) entries) = map snd entries.
Proof.
  induction entries as [| [d r] entries IH]; intros Hne; [reflexivity |].
  cbn [map fst snd].
  change (pointNode d r :: ?l) with ([pointNode d r] ++ l).
  rewrite readings_app, IH by (intros d' r' Hin; apply (Hne d' r'); now right).
  destruct (Hne d r) as [Ht Hv]; [now left |].
  rewrite readings_direct, reading_pointNode by (destruct d; reflexivity || assumption).
  reflexivity.
Qed.

Lemma fold_addReading_fresh (rs : list (string * string)) :
  forall (pts : list DataPoint) (seen : gset string),
    List.NoDup (map fst rs) ->
    (forall r, In r rs -> fst r ∉ seen) ->
    fst (fold_left addReading rs (pts, seen)) = pts ++ map pointOf rs.
Proof.
  induction rs as [| r rs IH]; intros pts seen Hnodup Hfresh; cbn [fold_left map].
  - now rewrite app_nil_r.
  - inversion Hnodup as [| ? ? Hr Hrest]; subst.
    unfold Route.addReading at 2.
    destruct (decide (fst r ∈ seen)) as [Hin | _];
      [exfalso; apply (Hfresh r); [now left | exact Hin] |].
    rewrite IH.
    + now rewrite <- app_assoc.
    + exact Hrest.
    + intros r' Hr' Hin. apply elem_of_union in Hin as [Hin | Hin].
      * apply elem_of_singleton in Hin. apply Hr. rewrite <- Hin.
        now apply in_map.
      * apply (Hfresh r'); [now right | exact Hin].
Qed.

(** X8: Round trip: point-nodes built, in either dialect, from pairs of a date
    and a value string (both non-empty, the dates distinct) parse back to
    exactly those pairs, in sorted order, with the values run through
    [parseFloat]; wrapping the nodes in one [Cube] array changes nothing. *)
Theorem parseDataPoints_round_trip :
  forall entries : list (Dialect * (string * string)),
    (forall d r, In (d, r) entries -> fst r <> "" /\ snd r <> "") ->
    List.NoDup (map (fun e => fst (snd e)) entries) ->
    let nodes := map (fun e => pointNode (fst e) (snd e)) entries in
    parseDataPoints nodes = sortPoints (map (fun e => pointOf (snd e)) entries)
    /\ Permutation (map (fun e => pointOf (snd e)) entries) (parseDataPoints nodes)
    /\ parseDataPoints [JObject [("Cube", JArray nodes)]] = parseDataPoints nodes.
Proof.
  intros entries Hne Hnodup nodes.
  assert (Hparse : parseDataPoints nodes
                   = sortPoints (map (fun e => pointOf (snd e)) entries)).
  { unfold Route.parseDataPoints, Route.collectPoints. f_equal.
    rewrite fold_visitObservation. fold (readings nodes). unfold nodes.
    rewrite readings_pointNodes by exact Hne.
    rewrite fold_addReading_fresh.
    - cbn [app]. now rewrite map_map.
    - now rewrite map_map.
    - intros r _. apply not_elem_of_empty. }
  repeat split.
  - exact Hparse.
  - rewrite Hparse. apply sortPoints_Permutation.
  - apply parseDataPoints_by_readings, readings_wrapper.
    + reflexivity.
    + intros c (e & <- & _)%in_map_iff. now destruct (fst e).
Qed.

End ParseInvariants.

(** ** [findObservations] *)

Section FindObservationsFacts.
Import Route.

Lemma lookupProp_In (key : string) (props : list (string * JSValue)) :
  lookupProp key props <> JUndefined -> In (lookupProp key props) (map snd props).
Proof.
  induction props as [| [k v] props IH]; cbn [lookupProp map snd In]; [congruence |].
  destruct (String.eqb k key); [now left | right; now apply IH].
Qed.

Lemma getProp_ownValues (obj : JSValue) (key : string) :
  truthy (getProp obj key) = true -> In (getProp obj key) (ownValues obj).
Proof.
  destruct obj; cbn [getProp ownValues truthy]; try discriminate.
  intros Htruthy. apply lookupProp_In. intros Hundef.
  now rewrite Hundef in Htruthy.
Qed.

Lemma object_structured (v : JSValue) :
  truthy v && typeofObject v = true -> structured v = true.
Proof.
  intros [Htruthy Hobj]%andb_true_iff. destruct v; try discriminate; reflexivity.
Qed.

Lemma orValue_cases (a b : JSValue) :
  truthy (orValue a b) = true ->
  (orValue a b = a /\ truthy a = true) \/ (orValue a b = b /\ truthy b = true).
Proof.
  unfold orValue. destruct (truthy a) eqn:Ha; [now left | now right].
Qed.

Lemma StoredUnder_child (key : string) (parsed child x : JSValue) :
  In child (ownValues parsed) -> structured child = true ->
  StoredUnder key child x -> StoredUnder key parsed x.
Proof.
  intros Hchild Hstruct (d & o & Hbelow & Htruthy & Hx).
  exists (S d), o. repeat split; try assumption.
  econstructor; eassumption.
Qed.

Lemma StoredInDocument_child (parsed child x : JSValue) :
  In child (ownValues parsed) -> structured child = true ->
  StoredInDocument child x -> StoredInDocument parsed x.
Proof.
  intros Hchild Hstruct [H | [H | [H | H]]];
    [left | right; left | right; right; left | right; right; right];
    eapply StoredUnder_child; eassumption.
Qed.

Lemma StoredUnder_here (key : string) (o x : JSValue) :
  truthy (getProp o key) = true -> In x (asList (getProp o key)) ->
  StoredUnder key o x.
Proof. intros Ht Hx. exists 0, o. repeat split; [constructor | |]; assumption. Qed.

Lemma Below_plain_structured (d : nat) (root o : JSValue) :
  Below isPlainObject d root o -> Below structured d root o.
Proof.
  induction 1 as [root | d root v o Hv Hplain Hpath IH]; [constructor |].
  econstructor; [exact Hv | | exact IH].
  unfold isPlainObject in Hplain.
  apply andb_true_iff in Hplain as [Hobj _]. now apply object_structured.
Qed.

Lemma cubesUnder_stored (o : JSValue) (key : string) (x : JSValue) :
  In x (cubesUnder o key) ->
  truthy (getProp o key) = true /\ In x (asList (getProp o key)).
Proof.
  unfold cubesUnder, asList. destruct (truthy (getProp o key)); [| contradiction].
  intros Hx. split; [reflexivity |]. now destruct (getProp o key).
Qed.

Lemma recursive_cubes_stored (root x : JSValue) :
  In x (findCubesRecursive root 0) ->
  StoredUnder "Cube" root x \/ StoredUnder "cube" root x.
Proof.
  intros Hx. apply (findCubesRecursive_sound 6) in Hx; [| lia].
  destruct Hx as (d & o & _ & Hpath & Hcube).
  apply Below_plain_structured in Hpath.
  unfold cubesOf in Hcube. apply in_app_or in Hcube as [Hc | Hc];
    apply cubesUnder_stored in Hc as [Ht Hin];
    [left | right]; exists d, o; repeat split; assumption.
Qed.

Lemma orValue_stored (k1 k2 : string) (o x : JSValue) :
  truthy (orValue (getProp o k1) (getProp o k2)) = true ->
  In x (asList (orValue (getProp o k1) (getProp o k2))) ->
  StoredUnder k1 o x \/ StoredUnder k2 o x.
Proof.
  intros Ht Hx. destruct (orValue_cases _ _ Ht) as [[Heq Ha] | [Heq Hb]];
    rewrite Heq in Hx; [left | right]; now apply StoredUnder_here.
Qed.

Lemma orValue_child (k1 k2 : string) (o : JSValue) :
  truthy (orValue (getProp o k1) (getProp o k2)) = true ->
  In (orValue (getProp o k1) (getProp o k2)) (ownValues o).
Proof.
  intros Ht. destruct (orValue_cases _ _ Ht) as [[Heq Ha] | [Heq Hb]];
    rewrite Heq; now apply getProp_ownValues.
Qed.

Lemma orValue_either (a b : JSValue) : orValue a b = a \/ orValue a b = b.
Proof. unfold orValue. destruct (truthy a); auto. Qed.

Lemma chain_child (o a b c d : JSValue) :
  (forall v, In v [a; b; c; d] -> exists key, v = getProp o key) ->
  truthy (orValue (orValue (orValue a b) c) d) = true ->
  In (orValue (orValue (orValue a b) c) d) (ownValues o).
Proof.
  intros Hprops Htruthy.
  assert (Hone : In (orValue (orValue (orValue a b) c) d) [a; b; c; d]).
  { destruct (orValue_either (orValue (orValue a b) c) d) as [-> | ->];
      [| cbn; tauto].
    destruct (orValue_either (orValue a b) c) as [-> | ->]; [| cbn; tauto].
    destruct (orValue_either a b) as [-> | ->]; cbn; tauto. }
  destruct (Hprops _ Hone) as [key Hkey].
  rewrite Hkey in Htruthy |- *. now apply getProp_ownValues.
Qed.

Lemma fromEnvelope_sound (envelope : JSValue) (found : list JSValue) :
  fromEnvelope envelope = Some found ->
  truthy envelope && typeofObject envelope = true
  /\ forall x, In x found -> StoredInDocument envelope x.
Proof.
  unfold fromEnvelope.
  destruct (truthy envelope && typeofObject envelope) eqn:Henv; [| discriminate].
  intros Hfound. split; [reflexivity |]. revert Hfound.
  destruct (truthy (orValue (getProp envelope "Cube") (getProp envelope "cube")))
    eqn:Hcube.
  { intros [= <-] x Hx.
    destruct (orValue_stored _ _ _ _ Hcube Hx); [left | right; left]; assumption. }
  destruct (0 <? length (findCubesRecursive envelope 0))%nat.
  { intros [= <-] x Hx.
    destruct (recursive_cubes_stored _ _ Hx); [left | right; left]; assumption. }
  set (message := orValue (getProp envelope "message") (getProp envelope "Message")).
  destruct (truthy message && typeofObject message) eqn:Hmsg; [| discriminate].
  set (dataset := orValue (orValue (orValue (getProp message "DataSet")
                                      (getProp message "dataset"))
                             (getProp message "DataSet")) (getProp message "dataSet")).
  destruct (truthy dataset && typeofObject dataset) eqn:Hds; [| discriminate].
  set (series := orValue (orValue (orValue (getProp dataset "Series")
                                     (getProp dataset "series"))
                            (getProp dataset "Series")) (getProp dataset "series")).
  destruct (truthy series && typeofObject series) eqn:Hser; [| discriminate].
  set (obs := orValue (orValue (orValue (getProp series "Obs") (getProp series "obs"))
                         (getProp series "Obs")) (getProp series "obs")).
  destruct (truthy obs) eqn:Hobs; [| discriminate].
  intros [= <-] x Hx.
  pose proof (proj1 (proj1 (andb_true_iff _ _) Hmsg)) as Hmsg_truthy.
  pose proof (proj1 (proj1 (andb_true_iff _ _) Hds)) as Hds_truthy.
  pose proof (proj1 (proj1 (andb_true_iff _ _) Hser)) as Hser_truthy.
  assert (Hmessage : In message (ownValues envelope))
    by (apply orValue_child; exact Hmsg_truthy).
  assert (Hdataset : In dataset (ownValues message)).
  { apply chain_child; [| exact Hds_truthy].
    intros v [<- | [<- | [<- | [<- | []]]]]; eauto. }
  assert (Hseries : In series (ownValues dataset)).
  { apply chain_child; [| exact Hser_truthy].
    intros v [<- | [<- | [<- | [<- | []]]]]; eauto. }
  apply (StoredInDocument_child _ message); [exact Hmessage | now apply object_structured |].
  apply (StoredInDocument_child _ dataset); [exact Hdataset | now apply object_structured |].
  apply (StoredInDocument_child _ series); [exact Hseries | now apply object_structured |].
  assert (Hwhich : obs = getProp series "Obs" \/ obs = getProp series "obs").
  { unfold obs.
    destruct (orValue_either (orValue (orValue (getProp series "Obs") (getProp series "obs"))
                                (getProp series "Obs")) (getProp series "obs"))
      as [-> | ->]; [| now right].
    destruct (orValue_either (orValue (getProp series "Obs") (getProp series "obs"))
                (getProp series "Obs")) as [-> | ->]; [| now left].
    destruct (orValue_either (getProp series "Obs") (getProp series "obs"))
      as [-> | ->]; [now left | now right]. }
  destruct Hwhich as [Heq | Heq]; rewrite Heq in Hobs, Hx;
    [right; right; left | right; right; right]; now apply StoredUnder_here.
Qed.

(** X9: Nothing is invented: every observation returned is a value, or an
    element of an array, stored under a [Cube], [cube], [Obs] or [obs] key
    of some node of the document. *)
Theorem findObservations_returns_stored_nodes :
  forall (parsed : JSValue) (found : list JSValue),
    findObservations parsed = Some found ->
    forall x, In x found -> StoredInDocument parsed x.
Proof.
  intros parsed found. unfold findObservations.
  destruct (negb (truthy parsed) || negb (typeofObject parsed)); [discriminate |].
  set (envelope := orValue (getProp parsed "Envelope") (getProp parsed "envelope")).
  destruct (fromEnvelope envelope) as [inEnvelope |] eqn:Henv.
  - intros [= <-] x Hx.
    apply fromEnvelope_sound in Henv as [Hobj Hstored].
    apply (StoredInDocument_child _ envelope).
    + apply orValue_child. exact (proj1 (proj1 (andb_true_iff _ _) Hobj)).
    + now apply object_structured.
    + now apply Hstored.
  - destruct (truthy (getProp parsed "Cube") && isArray (getProp parsed "Cube"))
      eqn:HCube.
    { intros [= <-] x Hx. left. apply andb_true_iff in HCube as [Ht _].
      now apply StoredUnder_here. }
    destruct (truthy (getProp parsed "cube") && isArray (getProp parsed "cube"))
      eqn:Hcube.
    { intros [= <-] x Hx. right. left. apply andb_true_iff in Hcube as [Ht _].
      now apply StoredUnder_here. }
    destruct (0 <? length (findCubesRecursive parsed 0))%nat; [| discriminate].
    intros [= <-] x Hx.
    destruct (recursive_cubes_stored _ _ Hx); [left | right; left]; assumption.
Qed.


End FindObservationsFacts.

(** ** [GET] after parsing, and the page's [sorted] *)

Section GetFacts.
Import Route.
Variable parseFloat : string -> float.
Variable numberToString : float -> string.
Variable localeCompare : string -> string -> Z.

Local Abbreviation parseDataPoints :=
  (Route.parseDataPoints parseFloat numberToString localeCompare).
Local Abbreviation collectPoints := (Route.collectPoints parseFloat numberToString).
Local Abbreviation sortPoints := (Route.sortPoints localeCompare).
Local Abbreviation respond := (Route.respond parseFloat numberToString localeCompare).
Local Abbreviation collatesLexicographically :=
  (Route.collatesLexicographically localeCompare).

Lemma respond_success (parsed : JSValue) (r : BankRateResponse) :
  respond parsed = OkResponse r ->
  exists observations,
    findObservations parsed = Some observations
    /\ parseDataPoints observations <> []
    /\ r = {| seriesCode := "IUDBEDR";
              points := parseDataPoints observations;
              changesOnly := getChangesOnly (parseDataPoints observations);
              latestPoint := latest (getChangesOnly (parseDataPoints observations)) |}.
Proof.
  unfold Route.respond.
  destruct (findObservations parsed) as [[| first rest] |];
    try (destruct parsed; discriminate).
  destruct (negb (notNullish first)); [discriminate |].
  destruct (length (parseDataPoints (first :: rest)) =? 0)%nat eqn:Hlen; [discriminate |].
  intros [= <-]. exists (first :: rest). repeat split.
  intros Hnil. apply Nat.eqb_neq in Hlen. apply Hlen.
  now rewrite Hnil.
Qed.

(** X11: A successful answer always carries at least one point and a [latest]
    that is not [null]: [changesOnly] starts with the first point, and
    [latest] is its last element. *)
Theorem respond_success_has_latest :
  forall (parsed : JSValue) (r : BankRateResponse),
    respond parsed = OkResponse r ->
    seriesCode r = "IUDBEDR"
    /\ changesOnly r = getChangesOnly (points r)
    /\ exists first l,
         head (points r) = Some first
         /\ head (changesOnly r) = Some first
         /\ latestPoint r = Some l
         /\ last (changesOnly r) = Some l.
Proof.
  intros parsed r Hok.
  apply respond_success in Hok as (observations & _ & Hne & ->).
  cbn [seriesCode changesOnly points latestPoint].
  destruct (parseDataPoints observations) as [| p0 rest]; [contradiction |].
  repeat split. rewrite latest_last, getChangesOnly_cons.
  exists p0.
  destruct (last (p0 :: changesAfter p0 rest)) as [l |] eqn:Hlast.
  - exists l. repeat split.
  - apply last_None in Hlast. discriminate.
Qed.

Lemma collation_Permutation (l1 l2 : list string) :
  Permutation l1 l2 -> collatesLexicographically l1 -> collatesLexicographically l2.
Proof.
  intros Hperm Hcol a b Ha Hb.
  apply Hcol; eapply Permutation_in; try eassumption; now symmetry.
Qed.

Lemma dateLt_trans : Transitive dateLt.
Proof. intros p q r. unfold dateLt. apply transitivity. Qed.

Lemma parseDataPoints_StronglySorted (observations : list JSValue) :
  collatesLexicographically (map date (parseDataPoints observations)) ->
  StronglySorted dateLt (parseDataPoints observations).
Proof.
  intros Hcol.
  destruct (collectPoints_Collects parseFloat numberToString localeCompare observations)
    as [_ _ Hnodup].
  fold (collectPoints observations) in Hnodup. apply NoDup_ListNoDup in Hnodup.
  apply Sorted_StronglySorted; [exact dateLt_trans |].
  apply (sortPoints_Sorted parseFloat numberToString); [| exact Hnodup].
  eapply collation_Permutation; [| exact Hcol].
  apply Permutation_map. symmetry. apply sortPoints_Permutation.
Qed.

Lemma sortPoints_sorted_id (l : list DataPoint) :
  collatesLexicographically (map date l) ->
  StronglySorted dateLt l -> sortPoints l = l.
Proof.
  induction l as [| p l IH]; intros Hcol Hsorted; [reflexivity |].
  apply StronglySorted_inv in Hsorted as [Hsorted Hall].
  cbn [Route.sortPoints fold_right]. fold (sortPoints l).
  rewrite IH; [| intros a b Ha Hb; apply Hcol; now right | exact Hsorted].
  destruct l as [| q l]; [reflexivity |]. cbn [Route.insertPoint].
  destruct (localeCompare (date p) (date q) >? 0)%Z eqn:Hgt; [| reflexivity].
  exfalso.
  apply (collation_gt parseFloat numberToString localeCompare _ _ _ Hcol) in Hgt;
    [| now left | right; now left].
  apply Forall_inv in Hall. unfold dateLt in Hall.
  exact (StrictOrder_Irreflexive (R := String_as_OT.lt) _
           (StrictOrder_Transitive _ _ _ Hall Hgt)).
Qed.

(** X12: When the collation orders the dates of the answer lexicographically,
    [points] and [changesOnly] are in strictly ascending date order, and
    the page's own sort of [changesOnly] leaves it as it is. *)
Theorem page_sort_keeps_changesOnly :
  forall (parsed : JSValue) (r : BankRateResponse),
    respond parsed = OkResponse r ->
    collatesLexicographically (map date (points r)) ->
    StronglySorted dateLt (points r)
    /\ StronglySorted dateLt (changesOnly r)
    /\ Page.sorted localeCompare (Some r) = changesOnly r.
Proof.
  intros parsed r Hok Hcol.
  apply respond_success in Hok as (observations & _ & Hne & ->).
  cbn [changesOnly points] in *.
  assert (Hpoints : StronglySorted dateLt (parseDataPoints observations))
    by now apply parseDataPoints_StronglySorted.
  assert (Hsub : getChangesOnly (parseDataPoints observations)
                 `sublist_of` parseDataPoints observations).
  { destruct (parseDataPoints observations) as [| p0 rest]; [constructor |].
    rewrite getChangesOnly_cons. apply sublist_skip, changesAfter_sublist. }
  assert (Hchanges : StronglySorted dateLt (getChangesOnly (parseDataPoints observations)))
    by (eapply StronglySorted_sublist; eassumption).
  repeat split; try assumption.
  unfold Page.sorted. cbn [changesOnly].
  destruct (length (getChangesOnly (parseDataPoints observations)) =? 0)%nat eqn:Hlen.
  - apply Nat.eqb_eq, length_zero_iff_nil in Hlen. now rewrite Hlen.
  - apply sortPoints_sorted_id; [| exact Hchanges].
    intros a b Ha Hb. apply Hcol.
    + apply in_map_iff in Ha as (p & <- & Hp). apply in_map.
      apply list_elem_of_In. eapply elem_of_sublist; [| exact Hsub].
      now apply list_elem_of_In.
    + apply in_map_iff in Hb as (p & <- & Hp). apply in_map.
      apply list_elem_of_In. eapply elem_of_sublist; [| exact Hsub].
      now apply list_elem_of_In.
Qed.

End GetFacts.

(** ** The credit-card simulation: what a result can look like *)

Section PayoffShapes.
Import Impact.
Context {num : Type} {ops : NumberOps num}.

(** The loop answers with a month count below the cap, or with
    [willNotRepay]; never with neither, never with both. *)
Lemma payoffLoop_shape (monthlyRate monthlyRepayment : num) (fuel : nat) :
  forall (b t : num) (months : nat),
    let r := payoffLoop monthlyRate monthlyRepayment fuel b t months in
    (monthsToRepay r = None /\ willNotRepay r = true)
    \/ (exists m, monthsToRepay r = Some m /\ willNotRepay r = false
                  /\ months <= m < maxMonths).
Proof.
  assert (Hafter : forall (t : num) (months : nat),
             let r := afterLoop t months in
             (monthsToRepay r = None /\ willNotRepay r = true)
             \/ (exists m, monthsToRepay r = Some m /\ willNotRepay r = false
                           /\ months <= m < maxMonths)).
  { intros t months. unfold afterLoop. cbv zeta. cbn [monthsToRepay willNotRepay].
    destruct (Nat.leb_spec maxMonths months) as [Hcap | Hcap]; [now left |].
    right. exists months. repeat split; lia. }
  induction fuel as [| fuel IH]; intros b t months; cbn [payoffLoop].
  - apply Hafter.
  - destruct (lt cent b && (months <? maxMonths)%nat); [| apply Hafter].
    destruct (le monthlyRepayment (mul b monthlyRate)); [now left |].
    destruct (IH (sub (add b (mul b monthlyRate)) monthlyRepayment)
                (add t (mul b monthlyRate)) (S months))
      as [Hnone | (m & Hm & Hw & Hle)]; [now left |].
    right. exists m. repeat split; try assumption; lia.
Qed.

(** X18: The result object of the credit-card mode, on any numbers (binary64
    included): [willNotRepay] comes without a month count; a month count is
    below 600 and comes without [willNotRepay]; and a result with neither,
    the one the page reports as exceeding the simulation period, is
    returned exactly when the balance or the repayment is zero, and so never
    after the 600 months of the simulation have run. *)
Theorem payoff_result_shapes :
  forall balance apr monthlyRepayment : num,
    let r := simulateCreditCardPayoff balance apr monthlyRepayment in
    (willNotRepay r = true -> monthsToRepay r = None)
    /\ (forall m, monthsToRepay r = Some m ->
                  m < maxMonths /\ willNotRepay r = false)
    /\ (monthsToRepay r = None /\ willNotRepay r = false
        <-> strictEq balance (fromZ 0) || strictEq monthlyRepayment (fromZ 0) = true)
    /\ (strictEq balance (fromZ 0) || strictEq monthlyRepayment (fromZ 0) = true ->
        totalInterest r = fromZ 0).
Proof.
  intros balance apr monthlyRepayment r. unfold r, simulateCreditCardPayoff.
  destruct (strictEq balance (fromZ 0) || strictEq monthlyRepayment (fromZ 0)).
  - cbn [monthsToRepay willNotRepay totalInterest].
    split; [discriminate |]. split; [discriminate |].
    split; [split; auto | reflexivity].
  - cbv zeta.
    destruct (payoffLoop_shape (div (div apr (fromZ 100)) (fromZ 12))
                monthlyRepayment maxMonths balance (fromZ 0) 0)
      as [[Hnone Hw] | (m & Hm & Hw & Hle)].
    + rewrite Hnone, Hw.
      split; [reflexivity |]. split; [discriminate |].
      split; [| discriminate].
      split; [intros [_ Hfalse] |]; discriminate.
    + rewrite Hm, Hw.
      split; [discriminate |]. split; [intros m' [= <-]; split; [lia | reflexivity] |].
      split; [| discriminate].
      split; [intros [Hfalse _] |]; discriminate.
Qed.

End PayoffShapes.

(** ** Blank fields of the forms, in binary64 *)

Section BlankFields.
Import Finance Scenarios.
Context {pow : MathPow float}.
Variable parseFloat : string -> float.

Lemma orNumber_blank (x : float) :
  truthyNumber x = false -> orNumber x (fromZ 0) = 0%float.
Proof. unfold orNumber. now intros ->. Qed.

Lemma amortised_zero_principal (rate years : float) :
  monthlyPaymentAmortised 0%float rate years = 0%float.
Proof.
  unfold monthlyPaymentAmortised.
  destruct (lt 0%float (fromZ 0) || lt rate (fromZ 0) || lt years (fromZ 0));
    [reflexivity |].
  destruct (isNaN 0%float || isNaN rate || isNaN years); reflexivity.
Qed.

Lemma amortised_zero_years (principal rate : float) :
  monthlyPaymentAmortised principal rate 0%float = 0%float.
Proof.
  unfold monthlyPaymentAmortised.
  destruct (lt principal (fromZ 0) || lt rate (fromZ 0) || lt 0%float (fromZ 0));
    [reflexivity |].
  destruct (isNaN principal || isNaN rate || isNaN 0%float); [reflexivity |].
  replace (strictEq 0%float (fromZ 0)) with true by reflexivity.
  now rewrite orb_true_r.
Qed.

Lemma interestOnly_zero_principal (rate : float) :
  monthlyPaymentInterestOnly 0%float rate = 0%float.
Proof.
  unfold monthlyPaymentInterestOnly.
  destruct (lt 0%float (fromZ 0) || lt rate (fromZ 0)); [reflexivity |].
  destruct (isNaN 0%float || isNaN rate); reflexivity.
Qed.

(** X22: A loan amount that is blank, unparsable or zero, and for a repayment
    mortgage also such a term, gives payments of exactly zero under every
    rate, the bank rate being whatever it is (NaN included): no NaN and no
    division by a zero term reaches the page. *)
Theorem mortgage_blank_fields_give_zero :
  forall (inputs : MortgageInputs.t) (baseRate scenarioRate : float),
    truthyNumber (parseFloat (MortgageInputs.loanAmount inputs)) = false
    \/ (MortgageInputs.repaymentType inputs = Repayment
        /\ truthyNumber (parseFloat (MortgageInputs.termYears inputs)) = false) ->
    let res := mortgageResults parseFloat inputs baseRate scenarioRate in
    MortgageResults.paymentNow res = 0%float
    /\ MortgageResults.paymentScenario res = 0%float
    /\ MortgageResults.difference res = 0%float
    /\ (forall x, MortgageResults.paymentCurrentFixed res = Some x -> x = 0%float).
Proof.
  intros inputs baseRate scenarioRate Hblank res.
  unfold res, mortgageResults. cbv zeta.
  cbn [MortgageResults.paymentNow MortgageResults.paymentScenario
       MortgageResults.difference MortgageResults.paymentCurrentFixed].
  destruct Hblank as [Hamount | [Htype Hterm]].
  - rewrite (orNumber_blank _ Hamount).
    destruct (MortgageInputs.repaymentType inputs);
      rewrite ?amortised_zero_principal, ?interestOnly_zero_principal;
      (split; [reflexivity |]; split; [reflexivity |]; split; [reflexivity |]);
      intros x; destruct (orNull _); intros [= <-];
      rewrite ?amortised_zero_principal, ?interestOnly_zero_principal; reflexivity.
  - rewrite Htype, (orNumber_blank _ Hterm), !amortised_zero_years.
    split; [reflexivity |]. split; [reflexivity |]. split; [reflexivity |].
    intros x. destruct (orNull _); intros [= <-]. apply amortised_zero_years.
Qed.

Lemma savingsCompound_zero_months (balance rate : float) :
  savingsCompoundMonthly balance rate 0%float = balance.
Proof.
  unfold savingsCompoundMonthly.
  destruct (lt balance (fromZ 0) || lt rate (fromZ 0) || lt 0%float (fromZ 0));
    [reflexivity |].
  destruct (isNaN balance || isNaN rate || isNaN 0%float); reflexivity.
Qed.

Lemma savingsSimple_zero_months (balance rate : float) :
  savingsSimple balance rate 0%float = balance.
Proof.
  unfold savingsSimple.
  destruct (lt balance (fromZ 0) || lt rate (fromZ 0) || lt 0%float (fromZ 0));
    [reflexivity |].
  destruct (isNaN balance || isNaN rate || isNaN 0%float); reflexivity.
Qed.

(** X15: a personal loan whose amount or term is blank, unparsable or zero
    has a monthly payment of exactly zero under every rate (NaN included);
    with such a term the total paid is zero as well, and the total interest
    is zero minus the amount: the form then shows the amount, negated, as
    interest. *)
Theorem personal_loan_blank_fields :
  forall (inputs : LoanInputs.t) (baseRate : float),
    LoanInputs.mode inputs = PersonalLoan ->
    exists r,
      loanResults parseFloat inputs baseRate = PersonalLoanMode r
      /\ (truthyNumber (parseFloat (LoanInputs.loanAmount inputs)) = false
          \/ truthyNumber (parseFloat (LoanInputs.termYears inputs)) = false ->
          PersonalLoanResults.monthlyPayment r = 0%float)
      /\ (truthyNumber (parseFloat (LoanInputs.termYears inputs)) = false ->
          PersonalLoanResults.totalPaid r = 0%float
          /\ PersonalLoanResults.totalInterest r
             = (0 - orNumber (parseFloat (LoanInputs.loanAmount inputs)) (fromZ 0))%float).
Proof.
  intros inputs baseRate Hmode. unfold loanResults. rewrite Hmode. cbv zeta.
  eexists. split; [reflexivity |].
  cbn [PersonalLoanResults.monthlyPayment PersonalLoanResults.totalPaid
       PersonalLoanResults.totalInterest].
  split.
  - intros [Hamount | Hterm].
    + rewrite (orNumber_blank _ Hamount). apply amortised_zero_principal.
    + rewrite (orNumber_blank _ Hterm). apply amortised_zero_years.
  - intros Hterm. rewrite (orNumber_blank _ Hterm), amortised_zero_years.
    split; reflexivity.
Qed.

(** X17: savings over a number of months that is blank, unparsable or zero:
    the final balance, now and in the scenario, is exactly the balance
    entered, under every rate and either kind of interest, so the interest
    shown is the balance minus itself. *)
Theorem savings_blank_months_keep_balance :
  forall (inputs : SavingsInputs.t) (baseRate scenarioRate : float),
    truthyNumber (parseFloat (SavingsInputs.timeMonths inputs)) = false ->
    let res := savingsResults parseFloat inputs baseRate scenarioRate in
    let balance := orNumber (parseFloat (SavingsInputs.balance inputs)) (fromZ 0) in
    SavingsResults.finalBalanceNow res = balance
    /\ SavingsResults.finalBalanceScenario res = balance
    /\ SavingsResults.interestNow res = (balance - balance)%float
    /\ SavingsResults.interestScenario res = (balance - balance)%float
    /\ SavingsResults.difference res = (balance - balance)%float.
Proof.
  intros inputs baseRate scenarioRate Hmonths res balance.
  unfold res, savingsResults. cbv zeta. fold balance.
  cbn [SavingsResults.finalBalanceNow SavingsResults.finalBalanceScenario
       SavingsResults.interestNow SavingsResults.interestScenario
       SavingsResults.difference].
  rewrite (orNumber_blank _ Hmonths).
  destruct (SavingsInputs.interestType inputs);
    rewrite ?savingsCompound_zero_months, ?savingsSimple_zero_months;
    repeat split.
Qed.

End BlankFields.

(** ** The further properties on the sample documents *)

Section FurtherSamples.
Import Route.

Lemma parseDataPoints_ignores_silent_observations_witness :
  (negb (truthy (JString "n/a")) || negb (typeofObject (JString "n/a")) = true
   \/ (truthy (orValue (getProp (JString "n/a") "Cube") (getProp (JString "n/a") "cube"))
       = false
       /\ reading sampleNumberToString (JString "n/a") = None))
  /\ parseDataPoints sampleParseFloat sampleNumberToString lexOrder
       ([cubeNode "2020-03-11" "0.25"] ++ JString "n/a" :: [cubeNode "2020-03-19" "0.5"])
     = parseDataPoints sampleParseFloat sampleNumberToString lexOrder
         ([cubeNode "2020-03-11" "0.25"] ++ [cubeNode "2020-03-19" "0.5"]).
Proof.
  assert (Hsilent :
            negb (truthy (JString "n/a")) || negb (typeofObject (JString "n/a")) = true
            \/ (truthy (orValue (getProp (JString "n/a") "Cube")
                          (getProp (JString "n/a") "cube")) = false
                /\ reading sampleNumberToString (JString "n/a") = None))
    by (left; reflexivity).
  exact (conj Hsilent
           (parseDataPoints_ignores_silent_observations sampleParseFloat
              sampleNumberToString lexOrder [cubeNode "2020-03-11" "0.25"]
              (JString "n/a") [cubeNode "2020-03-19" "0.5"] Hsilent)).
Defined.

Lemma parseDataPoints_flattens_wrapper_witness :
  let items := [cubeNode "2020-03-19" "0.5"; cubeNode "2020-03-11" "0.25"] in
  let wrapper := JObject [("Cube", JArray items)] in
  orValue (getProp wrapper "Cube") (getProp wrapper "cube") = JArray items
  /\ (forall c, In c items ->
        truthy (orValue (getProp c "Cube") (getProp c "cube")) = false)
  /\ parseDataPoints sampleParseFloat sampleNumberToString lexOrder
       ([] ++ wrapper :: [cubeNode "2020-03-20" "0.75"])
     = parseDataPoints sampleParseFloat sampleNumberToString lexOrder
         ([] ++ items ++ [cubeNode "2020-03-20" "0.75"]).
Proof.
  intros items wrapper.
  assert (Hcube : orValue (getProp wrapper "Cube") (getProp wrapper "cube") = JArray items)
    by reflexivity.
  assert (Hplain : forall c, In c items ->
            truthy (orValue (getProp c "Cube") (getProp c "cube")) = false).
  { intros c [<- | [<- | []]]; reflexivity. }
  exact (conj Hcube (conj Hplain
           (parseDataPoints_flattens_wrapper sampleParseFloat sampleNumberToString
              lexOrder [] wrapper items [cubeNode "2020-03-20" "0.75"] Hcube Hplain))).
Defined.

Lemma parseDataPoints_round_trip_witness :
  let nodes := map (fun e => pointNode (fst e) (snd e)) sampleEntries in
  (forall d r, In (d, r) sampleEntries -> fst r <> "" /\ snd r <> "")
  /\ List.NoDup (map (fun e => fst (snd e)) sampleEntries)
  /\ parseDataPoints sampleParseFloat sampleNumberToString lexOrder nodes
     = sortPoints lexOrder (map (fun e => pointOf sampleParseFloat (snd e)) sampleEntries)
  /\ Permutation (map (fun e => pointOf sampleParseFloat (snd e)) sampleEntries)
       (parseDataPoints sampleParseFloat sampleNumberToString lexOrder nodes)
  /\ parseDataPoints sampleParseFloat sampleNumberToString lexOrder
       [JObject [("Cube", JArray nodes)]]
     = parseDataPoints sampleParseFloat sampleNumberToString lexOrder nodes.
Proof.
  intros nodes.
  assert (Hne : forall d r, In (d, r) sampleEntries -> fst r <> "" /\ snd r <> "").
  { intros d r [[= <- <-] | [[= <- <-] | []]]; split; discriminate. }
  assert (Hnodup : List.NoDup (map (fun e => fst (snd e)) sampleEntries)).
  { apply List.NoDup_cons; [intros [Heq | []]; discriminate |].
    apply List.NoDup_cons; [intros [] | apply List.NoDup_nil]. }
  exact (conj Hne (conj Hnodup
           (parseDataPoints_round_trip sampleParseFloat sampleNumberToString lexOrder
              sampleEntries Hne Hnodup))).
Defined.

Example parseDataPoints_round_trip_sample :
  parseDataPoints sampleParseFloat sampleNumberToString lexOrder
    (map (fun e => pointNode (fst e) (snd e)) sampleEntries)
  = samplePoints.
Proof. vm_compute. reflexivity. Qed.

Lemma findObservations_returns_stored_nodes_witness :
  let found := [JObject [("Cube", JArray [cubeNode "2020-03-11" "0.25";
                                          cubeNode "2020-03-19" "0.5"])]] in
  findObservations envelopeDocument = Some found
  /\ forall x, In x found -> StoredInDocument envelopeDocument x.
Proof.
  intros found.
  assert (Hfound : findObservations envelopeDocument = Some found) by reflexivity.
  exact (conj Hfound
           (findObservations_returns_stored_nodes envelopeDocument found Hfound)).
Defined.



Lemma respond_sample :
  respond sampleParseFloat sampleNumberToString lexOrder envelopeDocument
  = OkResponse sampleResponse.
Proof. vm_compute. reflexivity. Defined.

Lemma respond_success_has_latest_witness :
  respond sampleParseFloat sampleNumberToString lexOrder envelopeDocument
  = OkResponse sampleResponse
  /\ seriesCode sampleResponse = "IUDBEDR"
  /\ changesOnly sampleResponse = getChangesOnly (points sampleResponse)
  /\ exists first l,
       head (points sampleResponse) = Some first
       /\ head (changesOnly sampleResponse) = Some first
       /\ latestPoint sampleResponse = Some l
       /\ last (changesOnly sampleResponse) = Some l.
Proof.
  exact (conj respond_sample
           (respond_success_has_latest sampleParseFloat sampleNumberToString lexOrder
              envelopeDocument sampleResponse respond_sample)).
Defined.

Lemma page_sort_keeps_changesOnly_witness :
  respond sampleParseFloat sampleNumberToString lexOrder envelopeDocument
  = OkResponse sampleResponse
  /\ collatesLexicographically lexOrder (map date (points sampleResponse))
  /\ StronglySorted dateLt (points sampleResponse)
  /\ StronglySorted dateLt (changesOnly sampleResponse)
  /\ Page.sorted lexOrder (Some sampleResponse) = changesOnly sampleResponse.
Proof.
  exact (conj respond_sample (conj (lexOrder_collates _)
           (page_sort_keeps_changesOnly sampleParseFloat sampleNumberToString lexOrder
              envelopeDocument sampleResponse respond_sample (lexOrder_collates _)))).
Defined.

Lemma personal_loan_blank_fields_witness :
  Scenarios.LoanInputs.mode sampleLoan = Scenarios.PersonalLoan
  /\ exists r,
       Scenarios.loanResults (pow := powTwelve) sampleParseFloat sampleLoan 0.5%float
       = Scenarios.PersonalLoanMode r
       /\ (Scenarios.truthyNumber
             (sampleParseFloat (Scenarios.LoanInputs.loanAmount sampleLoan)) = false
           \/ Scenarios.truthyNumber
                (sampleParseFloat (Scenarios.LoanInputs.termYears sampleLoan)) = false ->
           Scenarios.PersonalLoanResults.monthlyPayment r = 0%float)
       /\ (Scenarios.truthyNumber
             (sampleParseFloat (Scenarios.LoanInputs.termYears sampleLoan)) = false ->
           Scenarios.PersonalLoanResults.totalPaid r = 0%float
           /\ Scenarios.PersonalLoanResults.totalInterest r
              = (0 - Scenarios.orNumber
                       (sampleParseFloat (Scenarios.LoanInputs.loanAmount sampleLoan))
                       (fromZ 0))%float).
Proof.
  exact (conj eq_refl
           (personal_loan_blank_fields (pow := powTwelve) sampleParseFloat sampleLoan
              0.5%float eq_refl)).
Defined.

Example personal_loan_blank_term_sample :
  Scenarios.loanResults (pow := powTwelve) sampleParseFloat sampleLoan 0.5%float
  = Scenarios.PersonalLoanMode
      {| Scenarios.PersonalLoanResults.monthlyPayment := 0%float;
         Scenarios.PersonalLoanResults.totalInterest := (-0.75)%float;
         Scenarios.PersonalLoanResults.totalPaid := 0%float;
         Scenarios.PersonalLoanResults.annualRate := 0.25%float |}.
Proof. vm_compute. reflexivity. Qed.

Lemma savings_blank_months_keep_balance_witness :
  let res := Scenarios.savingsResults (pow := powTwelve) sampleParseFloat blankSavings
               0.5%float 0.75%float in
  let balance :=
    Scenarios.orNumber (sampleParseFloat (Scenarios.SavingsInputs.balance blankSavings))
      (fromZ 0) in
  Scenarios.truthyNumber
    (sampleParseFloat (Scenarios.SavingsInputs.timeMonths blankSavings)) = false
  /\ Scenarios.SavingsResults.finalBalanceNow res = balance
  /\ Scenarios.SavingsResults.finalBalanceScenario res = balance
  /\ Scenarios.SavingsResults.interestNow res = (balance - balance)%float
  /\ Scenarios.SavingsResults.interestScenario res = (balance - balance)%float
  /\ Scenarios.SavingsResults.difference res = (balance - balance)%float.
Proof.
  intros res balance.
  exact (conj eq_refl
           (savings_blank_months_keep_balance (pow := powTwelve) sampleParseFloat
              blankSavings 0.5%float 0.75%float eq_refl)).
Defined.

Lemma mortgage_blank_fields_give_zero_witness :
  let res := Scenarios.mortgageResults (pow := fun x _ => x) sampleParseFloat
               blankMortgage 0.5%float 0.75%float in
  (Scenarios.truthyNumber
     (sampleParseFloat (Scenarios.MortgageInputs.loanAmount blankMortgage)) = false
   \/ (Scenarios.MortgageInputs.repaymentType blankMortgage = Scenarios.Repayment
       /\ Scenarios.truthyNumber
            (sampleParseFloat (Scenarios.MortgageInputs.termYears blankMortgage)) = false))
  /\ Scenarios.MortgageResults.paymentNow res = 0%float
  /\ Scenarios.MortgageResults.paymentScenario res = 0%float
  /\ Scenarios.MortgageResults.difference res = 0%float
  /\ (forall x, Scenarios.MortgageResults.paymentCurrentFixed res = Some x -> x = 0%float).
Proof.
  intros res.
  assert (Hblank :
            Scenarios.truthyNumber
              (sampleParseFloat (Scenarios.MortgageInputs.loanAmount blankMortgage)) = false
            \/ (Scenarios.MortgageInputs.repaymentType blankMortgage = Scenarios.Repayment
                /\ Scenarios.truthyNumber
                     (sampleParseFloat (Scenarios.MortgageInputs.termYears blankMortgage))
                   = false))
    by (left; reflexivity).
  exact (conj Hblank
           (mortgage_blank_fields_give_zero (pow := fun x _ => x) sampleParseFloat
              blankMortgage 0.5%float 0.75%float Hblank)).
Defined.

End FurtherSamples.
